(** * Gym log: storage adapter, draft editor and aggregator of [src/App.tsx]

    A shallow embedding of the data-handling code of the single component
    [App]: [loadWorkouts]/[saveWorkouts], the per-workout sums, the memoised
    views [sortedWorkouts] and [dashboard], the draft-editing callbacks and
    [handleSaveWorkout].

    Conventions of the embedding.
    - A JavaScript string is a [string]; each character stands for one code
      unit below 256.
    - A JavaScript [number] that the code reads from a record the type system
      never validated is a [number = option Z]: [Some z] is the integer [z],
      [None] is a value that is not a number at run time ([undefined], [null]
      or [NaN]).  Arithmetic is exact integer arithmetic.
    - Runtime services the component calls but does not define ([JSON],
      [dayjs], [crypto.randomUUID], the clock) are parameters. *)

From Stdlib Require Import ZArith List String Ascii Bool Lia Permutation Sorted.
From Stdlib Require Import DecimalString.
From stdpp Require Import gmap strings.
Import ListNotations.

Local Open Scope string_scope.
Local Open Scope Z_scope.

(* ===================================================================== *)
(** ** Strings: [String.prototype.trim] and [toLowerCase] *)
(* ===================================================================== *)

Module JsString.

(** WhiteSpace and LineTerminator code units below 256: TAB, LF, VT, FF,
    CR, SP and NBSP. *)
Definition isWhiteSpace (c : ascii) : bool :=
  let n := N_of_ascii c in
  ((9 <=? n) && (n <=? 13) || (n =? 32) || (n =? 160))%N.

Fixpoint trimStart (s : string) : string :=
  match s with
  | EmptyString => EmptyString
  | String c r => if isWhiteSpace c then trimStart r else s
  end.

Fixpoint trimEnd (s : string) : string :=
  match s with
  | EmptyString => EmptyString
  | String c r =>
      match trimEnd r with
      | EmptyString => if isWhiteSpace c then EmptyString else String c EmptyString
      | r' => String c r'
      end
  end.

Definition trim (s : string) : string := trimEnd (trimStart s).

(** Upper-case letters below 256: A-Z, and U+00C0-U+00DE except U+00D7. *)
Definition isUpper (c : ascii) : bool :=
  let n := N_of_ascii c in
  ((65 <=? n) && (n <=? 90) || (192 <=? n) && (n <=? 222) && negb (n =? 215))%N.

Definition lowerChar (c : ascii) : ascii :=
  if isUpper c then ascii_of_N (N_of_ascii c + 32) else c.

Fixpoint toLowerCase (s : string) : string :=
  match s with
  | EmptyString => EmptyString
  | String c r => String (lowerChar c) (toLowerCase r)
  end.

(** Truthiness of a string: only the empty string is falsy. *)
Definition truthy (s : string) : bool :=
  match s with EmptyString => false | _ => true end.

End JsString.

(* ===================================================================== *)
(** ** Numbers *)
(* ===================================================================== *)

Definition number := option Z.

(** [x || 0]: [x] when it is truthy, [0] when it is [0], [NaN], [null] or
    [undefined]. *)
Definition orZero (x : number) : Z :=
  match x with
  | Some v => if v =? 0 then 0 else v
  | None => 0
  end.

(** [a - b] on numbers; [NaN] is absorbing. *)
Definition numSub (a b : number) : number :=
  match a, b with
  | Some x, Some y => Some (x - y)
  | _, _ => None
  end.

(* ===================================================================== *)
(** ** Data model *)
(* ===================================================================== *)

Record SetEntry := mkSet { reps : number; weight : number }.

Record ExerciseEntry := mkExercise {
  ex_id : string;
  name : string;
  sets : list SetEntry
}.

Record Workout := mkWorkout {
  id : string;
  date : string;
  workoutName : string;
  exercises : list ExerciseEntry;
  createdAt : string
}.

Definition STORAGE_KEY : string := "gym-log-workouts-v1".

Definition createSet : SetEntry := {| reps := Some 10; weight := Some 0 |}.

(** [createExercise()]; the fresh UUID is supplied by the caller. *)
Definition createExercise (uuid : string) : ExerciseEntry :=
  {| ex_id := uuid; name := ""; sets := [createSet] |}.

(* ===================================================================== *)
(** ** Per-workout sums *)
(* ===================================================================== *)

(** The inner reducers [ex.sets.reduce(..., 0)]. *)
Definition setsVolume (ss : list SetEntry) : Z :=
  fold_left (fun s set => s + orZero (reps set) * orZero (weight set)) ss 0.

Definition setsReps (ss : list SetEntry) : Z :=
  fold_left (fun s set => s + orZero (reps set)) ss 0.



(* ===================================================================== *)
(** ** Exceptions *)
(* ===================================================================== *)

(** A computation either returns or throws. *)
Inductive result (A : Type) : Type :=
| Ok (a : A)
| Throw (e : string).
Arguments Ok {A} a.
Arguments Throw {A} e.

Definition bind {A B} (c : result A) (k : A -> result B) : result B :=
  match c with
  | Ok a => k a
  | Throw e => Throw e
  end.

Notation "'let!' x ':=' c 'in' k" := (bind c (fun x => k))
  (at level 10, x name, c at level 100, k at level 200).

(** [try { body } catch { handler }]. *)
Definition tryCatch {A} (body : result A) (handler : string -> result A) : result A :=
  match body with
  | Ok a => Ok a
  | Throw e => handler e
  end.

(* ===================================================================== *)
(** ** JSON values and the storage adapter *)
(* ===================================================================== *)

#[warnings="-register-all"] Inductive json : Type :=
| JNull
| JBool (b : bool)
| JNum (z : Z)
| JStr (s : string)
| JArr (items : list json)
| JObj (members : list (string * json)).

(** [JSON.stringify] writes [NaN] and [null] as [null]. *)
Definition numberToJson (x : number) : json :=
  match x with
  | Some z => JNum z
  | None => JNull
  end.

Definition setToJson (s : SetEntry) : json :=
  JObj [("reps", numberToJson (reps s)); ("weight", numberToJson (weight s))].

Definition exerciseToJson (ex : ExerciseEntry) : json :=
  JObj [("id", JStr (ex_id ex)); ("name", JStr (name ex));
        ("sets", JArr (map setToJson (sets ex)))].

(** The object built by [handleSaveWorkout], members in creation order. *)
Definition workoutToJson (w : Workout) : json :=
  JObj [("id", JStr (id w)); ("date", JStr (date w));
        ("workoutName", JStr (workoutName w));
        ("exercises", JArr (map exerciseToJson (exercises w)));
        ("createdAt", JStr (createdAt w))].

Section StoreAdapter.

(** [JSON.parse] (throws a SyntaxError on malformed text) and
    [JSON.stringify]. *)
Variable JSON_parse : string -> result json.
Variable JSON_stringify : json -> string.

(** [loadWorkouts()].  The cast [as Workout[]] checks nothing: the elements
    of the parsed array are returned as they are. *)
Definition loadWorkouts (localStorage : gmap string string) : result (list json) :=
  tryCatch
    (match localStorage !! STORAGE_KEY with
     | None => Ok []
     | Some raw =>
         if negb (JsString.truthy raw) then Ok []
         else
           let! parsed := JSON_parse raw in
           Ok (match parsed with
               | JArr items => items
               | _ => []
               end)
     end)
    (fun _ => Ok []).

(** [saveWorkouts(items)]: [localStorage.setItem(STORAGE_KEY, JSON.stringify(items))]. *)
Definition saveWorkouts (items : list json) (localStorage : gmap string string)
  : gmap string string :=
  <[STORAGE_KEY := JSON_stringify (JArr items)]> localStorage.

End StoreAdapter.

(* ===================================================================== *)
(** ** [Array.prototype.sort] *)
(* ===================================================================== *)

(** The value the sort reads off a comparator result: [NaN] counts as [+0]. *)
Definition compareValue (v : number) : Z :=
  match v with
  | Some z => z
  | None => 0
  end.

(** The sort is stable: an element moves behind a later one only when the
    comparator says it is greater.  Insertion from the right computes that
    arrangement.  For a comparator that is not consistent (one that answers
    [NaN] on some pairs) the language leaves the order to the engine; the
    model then gives what insertion gives, which leaves in place a list whose
    neighbours all compare as equal. *)
Fixpoint insertSorted {A} (comparefn : A -> A -> number) (x : A) (l : list A) : list A :=
  match l with
  | [] => [x]
  | y :: l' =>
      if compareValue (comparefn x y) <=? 0 then x :: l
      else y :: insertSorted comparefn x l'
  end.

Definition arraySort {A} (comparefn : A -> A -> number) (l : list A) : list A :=
  fold_right (insertSorted comparefn) [] l.

(* ===================================================================== *)
(** ** Derived views: [sortedWorkouts] and [dashboard] *)
(* ===================================================================== *)


Section Views.

(** [dayjs(s).valueOf()]: the timestamp of the parsed date, [NaN] ([None])
    when [s] is not a date.  [dayjs(s).format('MMM D')]. *)
Variable dayjs_valueOf : string -> number.
Variable dayjs_format_MMM_D : string -> string.

Definition byDateDesc (a b : Workout) : number :=
  numSub (dayjs_valueOf (date b)) (dayjs_valueOf (date a)).

(** [[...workouts].sort((a, b) => dayjs(b.date).valueOf() - dayjs(a.date).valueOf())] *)
Definition sortedWorkouts (workouts : list Workout) : list Workout :=
  arraySort byDateDesc workouts.


End Views.

(** *** Per-exercise totals *)

Record Group := mkGroup { g_name : string; totalVolume : Z; totalReps : Z }.

Record Bar := mkBar { exercise : string; volume : Z; bar_reps : Z }.

(** A JavaScript [Map] keeps its keys in insertion order; [set] on a present
    key replaces the value in place. *)
Fixpoint mapGet (m : list (string * Group)) (key : string) : option Group :=
  match m with
  | [] => None
  | (k, v) :: m' => if String.eqb k key then Some v else mapGet m' key
  end.

Fixpoint mapSet (m : list (string * Group)) (key : string) (v : Group)
  : list (string * Group) :=
  match m with
  | [] => [(key, v)]
  | (k, v') :: m' =>
      if String.eqb k key then (k, v) :: m' else (k, v') :: mapSet m' key v
  end.

Definition mapValues (m : list (string * Group)) : list Group := map snd m.

Definition exerciseKey (ex : ExerciseEntry) : string :=
  JsString.toLowerCase (JsString.trim (name ex)).

(** Body of the inner [for (const ex of workout.exercises)] loop. *)
Definition addExerciseToMap (byExercise : list (string * Group)) (ex : ExerciseEntry)
  : list (string * Group) :=
  let key := exerciseKey ex in
  if negb (JsString.truthy key) then byExercise
  else
    let current :=
      match mapGet byExercise key with
      | Some g => g
      | None => {| g_name := JsString.trim (name ex); totalVolume := 0; totalReps := 0 |}
      end in
    let current := {| g_name := g_name current;
                      totalVolume := totalVolume current + setsVolume (sets ex);
                      totalReps := totalReps current |} in
    let current := {| g_name := g_name current;
                      totalVolume := totalVolume current;
                      totalReps := totalReps current + setsReps (sets ex) |} in
    mapSet byExercise key current.

(** The two nested loops over [workouts]. *)
Definition byExercise (workouts : list Workout) : list (string * Group) :=
  fold_left (fun m workout => fold_left addExerciseToMap (exercises workout) m)
            workouts [].

Definition byVolumeDesc (a b : Group) : number :=
  Some (totalVolume b - totalVolume a).

(** [dashboard.exerciseBars] *)
Definition exerciseBars (workouts : list Workout) : list Bar :=
  map (fun x => {| exercise := g_name x; volume := totalVolume x; bar_reps := totalReps x |})
      (firstn 10 (arraySort byVolumeDesc (mapValues (byExercise workouts)))).


(* ===================================================================== *)
(** ** Draft editor: the updaters passed to [setExercises] *)
(* ===================================================================== *)

Inductive SetField := FieldReps | FieldWeight.

Definition updateExerciseName (exerciseId newName : string) (prev : list ExerciseEntry)
  : list ExerciseEntry :=
  map (fun ex =>
         if String.eqb (ex_id ex) exerciseId
         then {| ex_id := ex_id ex; name := newName; sets := sets ex |}
         else ex) prev.

Definition addExercise (uuid : string) (prev : list ExerciseEntry) : list ExerciseEntry :=
  prev ++ [createExercise uuid].

Definition removeExercise (exerciseId : string) (prev : list ExerciseEntry)
  : list ExerciseEntry :=
  if (length prev =? 1)%nat then prev
  else List.filter (fun ex => negb (String.eqb (ex_id ex) exerciseId)) prev.

Definition addSet (exerciseId : string) (prev : list ExerciseEntry) : list ExerciseEntry :=
  map (fun ex =>
         if String.eqb (ex_id ex) exerciseId
         then {| ex_id := ex_id ex; name := name ex; sets := sets ex ++ [createSet] |}
         else ex) prev.

(** [arr.filter((x, i) => p(x, i))], the index counted from [i]. *)
Fixpoint filterWithIndex {A} (p : A -> nat -> bool) (i : nat) (l : list A) : list A :=
  match l with
  | [] => []
  | x :: l' =>
      if p x i then x :: filterWithIndex p (S i) l' else filterWithIndex p (S i) l'
  end.

Definition removeSet (exerciseId : string) (setIndex : nat) (prev : list ExerciseEntry)
  : list ExerciseEntry :=
  map (fun ex =>
         if negb (String.eqb (ex_id ex) exerciseId) then ex
         else if (length (sets ex) =? 1)%nat then ex
         else {| ex_id := ex_id ex; name := name ex;
                 sets := filterWithIndex (fun _ i => negb (i =? setIndex)%nat) 0 (sets ex) |})
      prev.

(** [arr.map((x, i) => f(x, i))], the index counted from [i]. *)
Fixpoint mapWithIndex {A B} (f : A -> nat -> B) (i : nat) (l : list A) : list B :=
  match l with
  | [] => []
  | x :: l' => f x i :: mapWithIndex f (S i) l'
  end.

Definition setField (set : SetEntry) (field : SetField) (value : number) : SetEntry :=
  match field with
  | FieldReps => {| reps := value; weight := weight set |}
  | FieldWeight => {| reps := reps set; weight := value |}
  end.

Definition updateSet (exerciseId : string) (setIndex : nat) (field : SetField)
  (value : number) (prev : list ExerciseEntry) : list ExerciseEntry :=
  map (fun ex =>
         if negb (String.eqb (ex_id ex) exerciseId) then ex
         else
           let nextSets :=
             mapWithIndex (fun set i => if (i =? setIndex)%nat then setField set field value
                                        else set) 0 (sets ex) in
           {| ex_id := ex_id ex; name := name ex; sets := nextSets |})
      prev.

(** The edits a user can apply to the draft's exercise list.  [OpReset] is
    the [setExercises([createExercise()])] of a successful commit. *)
Inductive DraftOp :=
| OpRename (exerciseId newName : string)
| OpAddExercise (uuid : string)
| OpRemoveExercise (exerciseId : string)
| OpAddSet (exerciseId : string)
| OpRemoveSet (exerciseId : string) (setIndex : nat)
| OpUpdateSet (exerciseId : string) (setIndex : nat) (field : SetField) (value : number)
| OpReset (uuid : string).

Definition applyOp (op : DraftOp) (prev : list ExerciseEntry) : list ExerciseEntry :=
  match op with
  | OpRename i n => updateExerciseName i n prev
  | OpAddExercise u => addExercise u prev
  | OpRemoveExercise i => removeExercise i prev
  | OpAddSet i => addSet i prev
  | OpRemoveSet i k => removeSet i k prev
  | OpUpdateSet i k f v => updateSet i k f v prev
  | OpReset u => [createExercise u]
  end.

(** [crypto.randomUUID()] returns an identifier not in use: the UUID an
    [OpAddExercise] carries is none of the draft's current ids. *)
Definition freshFor (op : DraftOp) (prev : list ExerciseEntry) : Prop :=
  match op with
  | OpAddExercise u => ~ In u (map ex_id prev)
  | _ => True
  end.

(** Drafts reachable from the initial [useState([createExercise()])]. *)
Inductive reachableDraft : list ExerciseEntry -> Prop :=
| reach_init uuid : reachableDraft [createExercise uuid]
| reach_step op prev :
    reachableDraft prev -> freshFor op prev -> reachableDraft (applyOp op prev).

(** What the removal guards keep: a draft has an exercise, every exercise has
    a set, and no two exercises share an id. *)
Definition draftInvariant (d : list ExerciseEntry) : Prop :=
  d <> [] /\ Forall (fun ex => sets ex <> []) d /\ NoDup (map ex_id d).

(* ===================================================================== *)
(** ** Component state and the commit handler *)
(* ===================================================================== *)

Inductive Tab := TabLog | TabHistory | TabAnalytics.

(** The [useState] cells of [App]. *)
Record AppState := mkState {
  st_tab : Tab;
  st_workouts : list Workout;
  st_date : string;
  st_workoutName : string;
  st_exercises : list ExerciseEntry
}.

(** The component state together with what it acts on: the browser store and
    the messages shown with [alert]. *)
Record World := mkWorld {
  state : AppState;
  localStorage : gmap string string;
  alerts : list string
}.

(** What one run of [handleSaveWorkout] draws from its environment: the two
    [crypto.randomUUID()] results, [new Date().toISOString()] and
    [dayjs().format('YYYY-MM-DD')]. *)
Record Env := mkEnv {
  workoutUUID : string;
  exerciseUUID : string;
  nowISO : string;
  todayYMD : string
}.

Definition alert (msg : string) (w : World) : World :=
  {| state := state w; localStorage := localStorage w; alerts := alerts w ++ [msg] |}.

(** The two guards of [handleSaveWorkout]. *)
Definition nameBlank (st : AppState) : bool :=
  negb (JsString.truthy (JsString.trim (st_workoutName st))).

Definition someExerciseBlank (st : AppState) : bool :=
  existsb (fun ex => negb (JsString.truthy (JsString.trim (name ex)))) (st_exercises st).

Section Commit.

Variable JSON_stringify : json -> string.

Definition handleSaveWorkout (env : Env) (w : World) : World :=
  let st := state w in
  if nameBlank st then alert "Please enter a workout name." w
  else if someExerciseBlank st then alert "Please enter all exercise names." w
  else
    let workout := {| id := workoutUUID env;
                      date := st_date st;
                      workoutName := JsString.trim (st_workoutName st);
                      exercises := st_exercises st;
                      createdAt := nowISO env |} in
    let next := workout :: st_workouts st in
    {| state := {| st_tab := TabHistory;
                   st_workouts := next;
                   st_date := todayYMD env;
                   st_workoutName := "";
                   st_exercises := [createExercise (exerciseUUID env)] |};
       localStorage := saveWorkouts JSON_stringify (map workoutToJson next) (localStorage w);
       alerts := alerts w |}.

Definition deleteWorkout (workoutId : string) (w : World) : World :=
  let st := state w in
  let next := List.filter (fun x => negb (String.eqb (id x) workoutId)) (st_workouts st) in
  {| state := {| st_tab := st_tab st;
                 st_workouts := next;
                 st_date := st_date st;
                 st_workoutName := st_workoutName st;
                 st_exercises := st_exercises st |};
     localStorage := saveWorkouts JSON_stringify (map workoutToJson next) (localStorage w);
     alerts := alerts w |}.

End Commit.


(* ===================================================================== *)
(** ** The component as a transition system *)
(* ===================================================================== *)

(** The state after the first render: [useState(() => loadWorkouts())] gives
    the stored collection [loaded], the date field shows today, the name is
    empty and the draft is one fresh exercise. *)
Definition initialWorld (loaded : list Workout) (uuid today : string)
  (store : gmap string string) : World :=
  {| state := {| st_tab := TabLog; st_workouts := loaded; st_date := today;
                 st_workoutName := EmptyString;
                 st_exercises := [createExercise uuid] |};
     localStorage := store;
     alerts := [] |}.

(** [setTab], [setDate], [setWorkoutName] and [setExercises(updater)] as the
    event handlers of the form call them. *)
Definition setTab (t : Tab) (w : World) : World :=
  {| state := {| st_tab := t; st_workouts := st_workouts (state w);
                 st_date := st_date (state w);
                 st_workoutName := st_workoutName (state w);
                 st_exercises := st_exercises (state w) |};
     localStorage := localStorage w; alerts := alerts w |}.

Definition setDate (d : string) (w : World) : World :=
  {| state := {| st_tab := st_tab (state w); st_workouts := st_workouts (state w);
                 st_date := d;
                 st_workoutName := st_workoutName (state w);
                 st_exercises := st_exercises (state w) |};
     localStorage := localStorage w; alerts := alerts w |}.

Definition setWorkoutName (n : string) (w : World) : World :=
  {| state := {| st_tab := st_tab (state w); st_workouts := st_workouts (state w);
                 st_date := st_date (state w);
                 st_workoutName := n;
                 st_exercises := st_exercises (state w) |};
     localStorage := localStorage w; alerts := alerts w |}.

Definition setExercises (updater : list ExerciseEntry -> list ExerciseEntry) (w : World)
  : World :=
  {| state := {| st_tab := st_tab (state w); st_workouts := st_workouts (state w);
                 st_date := st_date (state w);
                 st_workoutName := st_workoutName (state w);
                 st_exercises := updater (st_exercises (state w)) |};
     localStorage := localStorage w; alerts := alerts w |}.

(** What the user can do: switch tab, edit the date or the name, edit the
    exercise list, press Save Workout, press Delete on a stored workout. *)
Inductive AppEvent :=
| EvTab (t : Tab)
| EvDate (d : string)
| EvName (n : string)
| EvDraft (op : DraftOp)
| EvSave (env : Env)
| EvDelete (workoutId : string).

Section Events.

Variable JSON_stringify : json -> string.

Definition step (ev : AppEvent) (w : World) : World :=
  match ev with
  | EvTab t => setTab t w
  | EvDate d => setDate d w
  | EvName n => setWorkoutName n w
  | EvDraft op => setExercises (applyOp op) w
  | EvSave env => handleSaveWorkout JSON_stringify env w
  | EvDelete i => deleteWorkout JSON_stringify i w
  end.

(** The events the form can raise in state [w]: no button resets the draft
    by itself, and [crypto.randomUUID()] returns an id not in use. *)
Definition eventOk (ev : AppEvent) (w : World) : Prop :=
  match ev with
  | EvDraft (OpReset _) => False
  | EvDraft op => freshFor op (st_exercises (state w))
  | EvSave env => ~ In (workoutUUID env) (map id (st_workouts (state w)))
  | _ => True
  end.

(** [reaches w w']: [w'] is [w] after some events. *)
Inductive reaches (w : World) : World -> Prop :=
| reaches_refl : reaches w w
| reaches_step ev w' : reaches w w' -> eventOk ev w' -> reaches w (step ev w').


End Events.

(** What validation and the removal guards give a stored workout: a
    non-empty name with no blanks around it, at least one exercise, and for
    each exercise a name that is not blank and at least one set. *)
Definition storedOk (x : Workout) : Prop :=
  workoutName x <> EmptyString /\
  JsString.trim (workoutName x) = workoutName x /\
  exercises x <> [] /\
  Forall (fun ex => JsString.trim (name ex) <> EmptyString /\ sets ex <> []) (exercises x).

(** Whether every character of a string is white space. *)
Fixpoint allWhiteSpace (s : string) : bool :=
  match s with
  | EmptyString => true
  | String c r => JsString.isWhiteSpace c && allWhiteSpace r
  end.

(* ===================================================================== *)
(** ** Reference instances of the runtime services *)
(* ===================================================================== *)

(** An executable [JSON] for the values this program stores: [null],
    booleans, integers, strings with the short escapes, arrays and objects.
    It instantiates the parameters of [StoreAdapter] on concrete blobs. *)
Module RefJSON.

Definition dquote : ascii := ascii_of_N 34.
Definition backslash : ascii := ascii_of_N 92.

Fixpoint escape (s : string) : string :=
  match s with
  | EmptyString => EmptyString
  | String c r =>
      if Ascii.eqb c dquote then String backslash (String dquote (escape r))
      else if Ascii.eqb c backslash then String backslash (String backslash (escape r))
      else if Ascii.eqb c (ascii_of_N 10) then String backslash (String "n" (escape r))
      else String c (escape r)
  end.

Definition quote (s : string) : string :=
  String dquote (escape s +:+ String dquote EmptyString).

Fixpoint join (sep : string) (l : list string) : string :=
  match l with
  | [] => EmptyString
  | [x] => x
  | x :: l' => x +:+ sep +:+ join sep l'
  end.

Definition stringOfZ (z : Z) : string := NilZero.string_of_int (Z.to_int z).

Fixpoint stringify (v : json) : string :=
  match v with
  | JNull => "null"
  | JBool true => "true"
  | JBool false => "false"
  | JNum z => stringOfZ z
  | JStr s => quote s
  | JArr items => "[" +:+ join "," (map stringify items) +:+ "]"
  | JObj members =>
      "{" +:+ join "," (map (fun kv => quote (fst kv) +:+ ":" +:+ stringify (snd kv)) members)
          +:+ "}"
  end.

Fixpoint skipWs (s : string) : string :=
  match s with
  | String c r =>
      let n := N_of_ascii c in
      if ((n =? 32) || (n =? 9) || (n =? 10) || (n =? 13))%N then skipWs r else s
  | EmptyString => EmptyString
  end.

(** The characters of a string literal after its opening quote. *)
Fixpoint pString (s : string) : option (string * string) :=
  match s with
  | EmptyString => None
  | String c r =>
      if Ascii.eqb c dquote then Some (EmptyString, r)
      else if Ascii.eqb c backslash then
        match r with
        | String e r' =>
            let unescaped :=
              if Ascii.eqb e dquote then Some dquote
              else if Ascii.eqb e backslash then Some backslash
              else if Ascii.eqb e "/" then Some "/"%char
              else if Ascii.eqb e "n" then Some (ascii_of_N 10)
              else if Ascii.eqb e "t" then Some (ascii_of_N 9)
              else if Ascii.eqb e "r" then Some (ascii_of_N 13)
              else None in
            match unescaped, pString r' with
            | Some c', Some (str, rest) => Some (String c' str, rest)
            | _, _ => None
            end
        | EmptyString => None
        end
      else if (N_of_ascii c <? 32)%N then None
      else
        match pString r with
        | Some (str, rest) => Some (String c str, rest)
        | None => None
        end
  end.

Definition digit (c : ascii) : option Z :=
  let n := N_of_ascii c in
  if ((48 <=? n) && (n <=? 57))%N then Some (Z.of_N n - 48) else None.

Fixpoint pDigits (s : string) (acc : Z) : Z * string :=
  match s with
  | String c r =>
      match digit c with
      | Some d => pDigits r (10 * acc + d)
      | None => (acc, s)
      end
  | EmptyString => (acc, s)
  end.

Definition pNat (s : string) : option (Z * string) :=
  match s with
  | String c r =>
      match digit c with
      | Some d => Some (pDigits r d)
      | None => None
      end
  | EmptyString => None
  end.

Definition pLiteral (lit : string) (v : json) (s : string) : option (json * string) :=
  if String.prefix lit s
  then Some (v, String.substring (String.length lit)
                                 (String.length s - String.length lit) s)
  else None.

Fixpoint pValue (fuel : nat) (s : string) {struct fuel} : option (json * string) :=
  match fuel with
  | O => None
  | S fuel' =>
      match skipWs s with
      | String c r =>
          if Ascii.eqb c dquote then
            match pString r with
            | Some (str, rest) => Some (JStr str, rest)
            | None => None
            end
          else if Ascii.eqb c "[" then
            match skipWs r with
            | String "]" rest => Some (JArr [], rest)
            | _ =>
                match pElems fuel' r with
                | Some (items, rest) => Some (JArr items, rest)
                | None => None
                end
            end
          else if Ascii.eqb c "{" then
            match skipWs r with
            | String "}" rest => Some (JObj [], rest)
            | _ =>
                match pMembers fuel' r with
                | Some (members, rest) => Some (JObj members, rest)
                | None => None
                end
            end
          else if Ascii.eqb c "-" then
            match pNat r with
            | Some (z, rest) => Some (JNum (- z), rest)
            | None => None
            end
          else if Ascii.eqb c "n" then pLiteral "null" JNull (String c r)
          else if Ascii.eqb c "t" then pLiteral "true" (JBool true) (String c r)
          else if Ascii.eqb c "f" then pLiteral "false" (JBool false) (String c r)
          else
            match pNat (String c r) with
            | Some (z, rest) => Some (JNum z, rest)
            | None => None
            end
      | EmptyString => None
      end
  end
with pElems (fuel : nat) (s : string) {struct fuel} : option (list json * string) :=
  match fuel with
  | O => None
  | S fuel' =>
      match pValue fuel' s with
      | Some (v, rest) =>
          match skipWs rest with
          | String "]" rest' => Some ([v], rest')
          | String "," rest' =>
              match pElems fuel' rest' with
              | Some (vs, rest'') => Some (v :: vs, rest'')
              | None => None
              end
          | _ => None
          end
      | None => None
      end
  end
with pMembers (fuel : nat) (s : string) {struct fuel}
  : option (list (string * json) * string) :=
  match fuel with
  | O => None
  | S fuel' =>
      match skipWs s with
      | String c r =>
          if negb (Ascii.eqb c dquote) then None
          else
            match pString r with
            | Some (key, rest) =>
                match skipWs rest with
                | String ":" rest' =>
                    match pValue fuel' rest' with
                    | Some (v, rest2) =>
                        match skipWs rest2 with
                        | String "}" rest3 => Some ([(key, v)], rest3)
                        | String "," rest3 =>
                            match pMembers fuel' rest3 with
                            | Some (ms, rest4) => Some ((key, v) :: ms, rest4)
                            | None => None
                            end
                        | _ => None
                        end
                    | None => None
                    end
                | _ => None
                end
            | None => None
            end
      | EmptyString => None
      end
  end.

Definition parse (s : string) : result json :=
  match pValue (2 * String.length s + 2) s with
  | Some (v, rest) =>
      match skipWs rest with
      | EmptyString => Ok v
      | _ => Throw "SyntaxError"
      end
  | None => Throw "SyntaxError"
  end.

(** Writes a JSON text with ['] in place of the double quote. *)
Fixpoint text (s : string) : string :=
  match s with
  | EmptyString => EmptyString
  | String c r => String (if Ascii.eqb c "'" then dquote else c) (text r)
  end.

End RefJSON.


(** An executable [dayjs] for the dates the form produces: a ten-character
    [YYYY-MM-DD] naming a day of the calendar is read as midnight UTC of that
    day; any other string, the empty one of a cleared date field included, is
    an invalid date, whose [valueOf()] is [NaN]. *)
Module RefDayjs.

Definition isLeap (y : Z) : bool :=
  ((y mod 4 =? 0) && negb (y mod 100 =? 0)) || (y mod 400 =? 0).

Definition daysInMonth (y m : Z) : Z :=
  if m =? 2 then (if isLeap y then 29 else 28)
  else if (m =? 4) || (m =? 6) || (m =? 9) || (m =? 11) then 30
  else 31.

(** Days from 1970-01-01 to the civil date [y-m-d]. *)
Definition daysFromCivil (y m d : Z) : Z :=
  let y' := if m <=? 2 then y - 1 else y in
  let era := y' / 400 in
  let yoe := y' - era * 400 in
  let mp := if 2 <? m then m - 3 else m + 9 in
  let doy := (153 * mp + 2) / 5 + d - 1 in
  let doe := yoe * 365 + yoe / 4 - yoe / 100 + doy in
  era * 146097 + doe - 719468.

Definition twoDigits (a b : ascii) : option Z :=
  match RefJSON.digit a, RefJSON.digit b with
  | Some x, Some y => Some (10 * x + y)
  | _, _ => None
  end.

(** Year, month and day of a well-formed date string. *)
Definition parseYMD (s : string) : option (Z * Z * Z) :=
  match s with
  | String y1 (String y2 (String y3 (String y4 (String "-" (String m1 (String m2
      (String "-" (String d1 (String d2 EmptyString))))))))) =>
      match twoDigits y1 y2, twoDigits y3 y4, twoDigits m1 m2, twoDigits d1 d2 with
      | Some yh, Some yl, Some m, Some d =>
          let y := 100 * yh + yl in
          if (1 <=? m) && (m <=? 12) && (1 <=? d) && (d <=? daysInMonth y m)
          then Some (y, m, d) else None
      | _, _, _, _ => None
      end
  | _ => None
  end.

Definition valueOf (s : string) : number :=
  match parseYMD s with
  | Some (y, m, d) => Some (daysFromCivil y m d * 86400000)
  | None => None
  end.



End RefDayjs.


(* ===================================================================== *)
(** ** The aggregator as the specification words it *)
(* ===================================================================== *)

Definition sumZ (l : list Z) : Z := fold_right Z.add 0 l.

(** What one set contributes: reps times weight, a missing value counting
    as nothing. *)
Definition setVolume (s : SetEntry) : Z :=
  match reps s, weight s with
  | Some r, Some w => r * w
  | _, _ => 0
  end.

Definition setReps (s : SetEntry) : Z :=
  match reps s with
  | Some r => r
  | None => 0
  end.



(** All exercise entries of all workouts, and those filed under a key. *)
Definition allEntries (ws : list Workout) : list ExerciseEntry := flat_map exercises ws.

Definition entriesOf (key : string) (ws : list Workout) : list ExerciseEntry :=
  List.filter (fun ex => String.eqb (exerciseKey ex) key) (allEntries ws).

(** The group of a key: none for the empty key or when no entry has the key,
    else the trimmed name of the first entry and the sums over every set of
    every entry. *)
Definition groupOf (key : string) (ws : list Workout) : option Group :=
  if negb (JsString.truthy key) then None
  else
    match entriesOf key ws with
    | [] => None
    | (e :: _) as es =>
        Some {| g_name := JsString.trim (name e);
                totalVolume := sumZ (map setVolume (flat_map sets es));
                totalReps := sumZ (map setReps (flat_map sets es)) |}
    end.



(** Most recent first: of two workouts that both carry a date, the earlier
    in the list is not the older. *)
Definition dateDescending (dayjs_valueOf : string -> number) (l : list Workout) : Prop :=
  StronglySorted
    (fun a b => forall x y, dayjs_valueOf (date a) = Some x ->
                            dayjs_valueOf (date b) = Some y -> y <= x) l.

Definition validDates (dayjs_valueOf : string -> number) (l : list Workout) : bool :=
  forallb (fun w => match dayjs_valueOf (date w) with Some _ => true | None => false end) l.


(** The timestamp of a workout that carries a date. *)
Definition timestamp (dayjs_valueOf : string -> number) (w : Workout) : Z :=
  match dayjs_valueOf (date w) with
  | Some z => z
  | None => 0
  end.



(** The record a key starts with, the two [+=] of the loop body, and their
    iteration over the entries filed under one key. *)
Definition newGroup (ex : ExerciseEntry) : Group :=
  {| g_name := JsString.trim (name ex); totalVolume := 0; totalReps := 0 |}.

Definition bump (g : Group) (ex : ExerciseEntry) : Group :=
  {| g_name := g_name g;
     totalVolume := totalVolume g + setsVolume (sets ex);
     totalReps := totalReps g + setsReps (sets ex) |}.

Definition accumulate (o : option Group) (es : list ExerciseEntry) : option Group :=
  fold_left (fun o ex => Some (bump (match o with Some g => g | None => newGroup ex end) ex))
            es o.

(** The entries the aggregation counts: those whose key is not empty. *)
Definition counted (ex : ExerciseEntry) : bool := JsString.truthy (exerciseKey ex).

(** The workouts of a list that carry the timestamp [t], in list order. *)
Definition withTimestamp (dayjs_valueOf : string -> number) (t : Z) (l : list Workout)
  : list Workout :=
  List.filter (fun w => timestamp dayjs_valueOf w =? t) l.

(* ===================================================================== *)
(** ** Sample data *)
(* ===================================================================== *)

(** The session of the end-to-end scenario. *)
Definition sampleWorkout : Workout :=
  {| id := "w1"; date := "2024-01-01"; workoutName := "Push Day";
     exercises := [ {| ex_id := "e1"; name := "Bench Press";
                       sets := [mkSet (Some 10) (Some 40); mkSet (Some 8) (Some 45)] |} ];
     createdAt := "2024-01-01T10:00:00.000Z" |}.

Definition sampleBlob : string := RefJSON.stringify (JArr [workoutToJson sampleWorkout]).

Definition sampleStore : gmap string string := {[ STORAGE_KEY := sampleBlob ]}.

Definition sampleEnv : Env :=
  {| workoutUUID := "w2"; exerciseUUID := "e3";
     nowISO := "2024-01-02T09:00:00.000Z"; todayYMD := "2024-01-02" |}.

(** A draft whose workout name is three blanks. *)
Definition blankNameWorld : World :=
  {| state := {| st_tab := TabLog; st_workouts := [sampleWorkout];
                 st_date := "2024-01-02"; st_workoutName := "   ";
                 st_exercises := [ {| ex_id := "e2"; name := "Squat"; sets := [createSet] |} ] |};
     localStorage := sampleStore;
     alerts := [] |}.

(** A draft that passes validation, its names typed with blanks around. *)
Definition readyWorld : World :=
  {| state := {| st_tab := TabLog; st_workouts := [sampleWorkout];
                 st_date := "2024-01-02"; st_workoutName := " Leg Day ";
                 st_exercises := [ {| ex_id := "e2"; name := " Squat ";
                                      sets := [mkSet (Some 5) (Some 100)] |} ] |};
     localStorage := sampleStore;
     alerts := [] |}.

Definition datedWorkout (i d : string) : Workout :=
  {| id := i; date := d; workoutName := "Session"; exercises := [createExercise i];
     createdAt := d |}.

(** A January session, one saved with the date field cleared, and a
    February session, in the order they are stored. *)
Definition clearedDateLog : list Workout :=
  [datedWorkout "a" "2024-01-01"; datedWorkout "x" EmptyString; datedWorkout "b" "2024-02-01"].

Definition datedLog : list Workout :=
  [datedWorkout "a" "2024-01-01"; datedWorkout "c" "2024-03-01";
   datedWorkout "b" "2024-02-01"; datedWorkout "d" "2024-01-01"].

(* ===================================================================== *)
(** ** Sums *)
(* ===================================================================== *)

Lemma fold_left_add {A} (f : A -> Z) (l : list A) (a : Z) :
  fold_left (fun s x => s + f x) l a = a + sumZ (map f l).
Proof.
  revert a. induction l as [|x l IH]; intros a; simpl.
  - lia.
  - rewrite IH. lia.
Qed.

Lemma sumZ_app (l1 l2 : list Z) : sumZ (l1 ++ l2) = sumZ l1 + sumZ l2.
Proof. induction l1 as [|x l1 IH]; simpl; lia. Qed.

Lemma orZero_value (x : number) :
  orZero x = match x with Some v => v | None => 0 end.
Proof.
  destruct x as [v|]; simpl; [|reflexivity].
  destruct (Z.eqb_spec v 0); lia.
Qed.

Lemma orZero_product (s : SetEntry) :
  orZero (reps s) * orZero (weight s) = setVolume s.
Proof.
  unfold setVolume. rewrite !orZero_value.
  destruct (reps s), (weight s); lia.
Qed.

Lemma setsVolume_sum (ss : list SetEntry) : setsVolume ss = sumZ (map setVolume ss).
Proof.
  unfold setsVolume. rewrite fold_left_add, Z.add_0_l.
  f_equal. apply map_ext. intros s. apply orZero_product.
Qed.

Lemma setsReps_sum (ss : list SetEntry) : setsReps ss = sumZ (map setReps ss).
Proof.
  unfold setsReps. rewrite fold_left_add, Z.add_0_l.
  f_equal. apply map_ext. intros s. unfold setReps. apply orZero_value.
Qed.





(* ===================================================================== *)
(** ** The sort *)
(* ===================================================================== *)

Section ArraySort.

Context {A : Type}.
Variable comparefn : A -> A -> number.

Lemma insertSorted_perm (x : A) (l : list A) :
  Permutation (insertSorted comparefn x l) (x :: l).
Proof.
  induction l as [|y l IH]; simpl; [reflexivity|].
  destruct (compareValue (comparefn x y) <=? 0); [reflexivity|].
  rewrite IH. apply perm_swap.
Qed.

Lemma arraySort_perm (l : list A) : Permutation (arraySort comparefn l) l.
Proof.
  induction l as [|x l IH]; simpl; [reflexivity|].
  rewrite insertSorted_perm. apply perm_skip, IH.
Qed.

Lemma arraySort_length (l : list A) : length (arraySort comparefn l) = length l.
Proof. apply Permutation_length, arraySort_perm. Qed.

(** When the comparator is the difference of a key, largest key first. *)
Variable key : A -> Z.

Lemma insertSorted_sorted (x : A) (l : list A) :
  (forall y, In y l -> comparefn x y = Some (key y - key x)) ->
  StronglySorted (fun a b => key b <= key a) l ->
  StronglySorted (fun a b => key b <= key a) (insertSorted comparefn x l).
Proof.
  induction l as [|y l IH]; intros Hc Hs; simpl.
  - repeat constructor.
  - rewrite (Hc y (or_introl eq_refl)). simpl.
    inversion Hs as [|? ? Hs' Hall]; subst.
    destruct (Z.leb_spec (key y - key x) 0) as [Hle|Hgt].
    + constructor; [exact Hs|].
      constructor; [lia|].
      eapply Forall_impl; [exact Hall|]. simpl. intros z Hz. lia.
    + constructor.
      * apply IH; [|exact Hs']. intros z Hz. apply Hc. right. exact Hz.
      * apply List.Forall_forall. intros z Hz.
        apply (Permutation_in _ (insertSorted_perm x l)) in Hz.
        destruct Hz as [<-|Hz]; [lia|].
        rewrite List.Forall_forall in Hall. apply Hall, Hz.
Qed.

Lemma arraySort_sorted (l : list A) :
  (forall x y, In x l -> In y l -> comparefn x y = Some (key y - key x)) ->
  StronglySorted (fun a b => key b <= key a) (arraySort comparefn l).
Proof.
  induction l as [|x l IH]; intros Hc; simpl.
  - constructor.
  - apply insertSorted_sorted.
    + intros y Hy. apply Hc; [left; reflexivity|].
      right. eapply Permutation_in; [apply arraySort_perm|exact Hy].
    + apply IH. intros a b Ha Hb. apply Hc; right; assumption.
Qed.

End ArraySort.

(* ===================================================================== *)
(** ** Strings *)
(* ===================================================================== *)

Lemma truthy_false (s : string) : JsString.truthy s = false <-> s = EmptyString.
Proof. destruct s; simpl; split; congruence. Qed.

Lemma toLowerCase_empty (s : string) :
  JsString.toLowerCase s = EmptyString <-> s = EmptyString.
Proof. destruct s; simpl; split; congruence. Qed.

Lemma exerciseKey_blank (ex : ExerciseEntry) :
  JsString.trim (name ex) = EmptyString <-> exerciseKey ex = EmptyString.
Proof. unfold exerciseKey. symmetry. apply toLowerCase_empty. Qed.

(* ===================================================================== *)
(** ** The insertion-ordered map *)
(* ===================================================================== *)

Lemma mapGet_mapSet_eq m k v : mapGet (mapSet m k v) k = Some v.
Proof.
  induction m as [|[k' v'] m IH]; simpl.
  - rewrite String.eqb_refl. reflexivity.
  - destruct (String.eqb_spec k' k) as [->|Hne]; simpl.
    + rewrite String.eqb_refl. reflexivity.
    + destruct (String.eqb_spec k' k); [contradiction|]. exact IH.
Qed.

Lemma mapGet_mapSet_ne m k k' v : k <> k' -> mapGet (mapSet m k v) k' = mapGet m k'.
Proof.
  intros Hne. induction m as [|[k0 v0] m IH]; simpl.
  - destruct (String.eqb_spec k k'); [contradiction|reflexivity].
  - destruct (String.eqb_spec k0 k) as [->|Hne0]; simpl.
    + destruct (String.eqb_spec k k'); [contradiction|reflexivity].
    + rewrite IH. reflexivity.
Qed.




Lemma addExerciseToMap_get m ex k :
  mapGet (addExerciseToMap m ex) k =
  if String.eqb (exerciseKey ex) k && JsString.truthy k
  then Some (bump (match mapGet m k with Some g => g | None => newGroup ex end) ex)
  else mapGet m k.
Proof.
  unfold addExerciseToMap.
  destruct (String.eqb_spec (exerciseKey ex) k) as [->|Hne]; simpl.
  - destruct (JsString.truthy k); simpl; [|reflexivity].
    rewrite mapGet_mapSet_eq. destruct (mapGet m k); reflexivity.
  - destruct (JsString.truthy (exerciseKey ex)); simpl; [|reflexivity].
    apply mapGet_mapSet_ne. exact Hne.
Qed.


Lemma byExercise_flat (ws : list Workout) :
  byExercise ws = fold_left addExerciseToMap (allEntries ws) [].
Proof.
  unfold byExercise, allEntries. generalize (@nil (string * Group)).
  induction ws as [|w ws IH]; intros m; simpl; [reflexivity|].
  rewrite fold_left_app. apply IH.
Qed.

Lemma fold_addExercise_get es m k :
  mapGet (fold_left addExerciseToMap es m) k =
  if JsString.truthy k
  then accumulate (mapGet m k) (List.filter (fun ex => String.eqb (exerciseKey ex) k) es)
  else mapGet m k.
Proof.
  revert m. induction es as [|e es IH]; intros m; simpl.
  - destruct (JsString.truthy k); reflexivity.
  - rewrite IH, addExerciseToMap_get.
    destruct (JsString.truthy k); simpl.
    + destruct (String.eqb (exerciseKey e) k); simpl; reflexivity.
    + rewrite andb_false_r. reflexivity.
Qed.


Lemma accumulate_cons o e es :
  accumulate o (e :: es) =
  accumulate (Some (bump (match o with Some g => g | None => newGroup e end) e)) es.
Proof. reflexivity. Qed.

Lemma accumulate_Some g es :
  accumulate (Some g) es =
  Some {| g_name := g_name g;
          totalVolume := totalVolume g + sumZ (map setVolume (flat_map sets es));
          totalReps := totalReps g + sumZ (map setReps (flat_map sets es)) |}.
Proof.
  revert g. induction es as [|e es IH]; intros g.
  - destruct g; simpl. rewrite !Z.add_0_r. reflexivity.
  - rewrite accumulate_cons, IH. simpl.
    rewrite !map_app, !sumZ_app, setsVolume_sum, setsReps_sum.
    f_equal. f_equal; lia.
Qed.

Lemma byExercise_get (ws : list Workout) (k : string) :
  mapGet (byExercise ws) k = groupOf k ws.
Proof.
  rewrite byExercise_flat, fold_addExercise_get. unfold groupOf, entriesOf.
  destruct (JsString.truthy k); simpl; [|reflexivity].
  destruct (List.filter _ (allEntries ws)) as [|e es]; [reflexivity|].
  rewrite accumulate_cons, accumulate_Some. simpl.
  rewrite !map_app, !sumZ_app, setsVolume_sum, setsReps_sum. reflexivity.
Qed.





(* ===================================================================== *)
(** ** The storage adapter *)
(* ===================================================================== *)

Section StoreAdapterFacts.

Variable JSON_parse : string -> result json.
Variable JSON_stringify : json -> string.

Lemma loadWorkouts_returns (ls : gmap string string) :
  exists items, loadWorkouts JSON_parse ls = Ok items.
Proof.
  unfold loadWorkouts.
  destruct (ls !! STORAGE_KEY) as [raw|]; simpl; [|eauto].
  destruct (JsString.truthy raw); simpl; [|eauto].
  destruct (JSON_parse raw) as [v|e]; simpl; eauto.
Qed.

Lemma loadWorkouts_present (ls : gmap string string) (raw : string) :
  ls !! STORAGE_KEY = Some raw ->
  JsString.truthy raw = true ->
  loadWorkouts JSON_parse ls =
  Ok (match JSON_parse raw with Ok (JArr items) => items | _ => [] end).
Proof.
  intros Hraw Ht. unfold loadWorkouts. rewrite Hraw, Ht. simpl.
  destruct (JSON_parse raw) as [v|e]; reflexivity.
Qed.



End StoreAdapterFacts.

(** C2. Whatever the store holds and whatever [JSON.parse] does with it,
    [loadWorkouts] returns (it never throws to its caller); when the blob is
    absent, when [JSON.parse] throws on it, or when it parses to a value that
    is not an array, the result is the empty sequence. *)
Theorem C2_load_fails_open (JSON_parse : string -> result json)
  (ls : gmap string string) :
  (exists items, loadWorkouts JSON_parse ls = Ok items) /\
  (ls !! STORAGE_KEY = None -> loadWorkouts JSON_parse ls = Ok []) /\
  (forall raw e, ls !! STORAGE_KEY = Some raw -> JSON_parse raw = Throw e ->
                 loadWorkouts JSON_parse ls = Ok []) /\
  (forall raw v, ls !! STORAGE_KEY = Some raw -> JSON_parse raw = Ok v ->
                 (forall items, v <> JArr items) ->
                 loadWorkouts JSON_parse ls = Ok []).
Proof.
  split; [apply loadWorkouts_returns|]. split; [|split].
  - intros Hnone. unfold loadWorkouts. rewrite Hnone. reflexivity.
  - intros raw e Hraw He. unfold loadWorkouts. rewrite Hraw, He.
    destruct (JsString.truthy raw); reflexivity.
  - intros raw v Hraw Hv Hna. unfold loadWorkouts. rewrite Hraw, Hv.
    destruct (JsString.truthy raw); simpl; [|reflexivity].
    destruct v; try reflexivity. exfalso. eapply Hna. reflexivity.
Qed.

(** C2 on three stores: an empty one, one whose blob is not JSON and one
    whose blob is a JSON object. *)
Lemma C2_load_fails_open_witness :
  loadWorkouts RefJSON.parse ∅ = Ok [] /\
  loadWorkouts RefJSON.parse {[ STORAGE_KEY := "not json" ]} = Ok [] /\
  loadWorkouts RefJSON.parse {[ STORAGE_KEY := "{}" ]} = Ok [].
Proof.
  split; [|split].
  - apply (C2_load_fails_open RefJSON.parse ∅). reflexivity.
  - apply (proj1 (proj2 (proj2 (C2_load_fails_open RefJSON.parse
                                  {[ STORAGE_KEY := "not json" ]})))
             "not json" "SyntaxError"); vm_compute; reflexivity.
  - apply (proj2 (proj2 (proj2 (C2_load_fails_open RefJSON.parse
                                  {[ STORAGE_KEY := "{}" ]})))
             "{}" (JObj [])); [vm_compute; reflexivity .. | discriminate].
Defined.



(* ===================================================================== *)
(** ** The commit handler *)
(* ===================================================================== *)

Lemma nameBlank_true (st : AppState) :
  nameBlank st = true <-> JsString.trim (st_workoutName st) = EmptyString.
Proof.
  unfold nameBlank. rewrite negb_true_iff. apply truthy_false.
Qed.

Lemma someExerciseBlank_true (st : AppState) :
  someExerciseBlank st = true <->
  exists ex, In ex (st_exercises st) /\ JsString.trim (name ex) = EmptyString.
Proof.
  unfold someExerciseBlank. rewrite existsb_exists.
  split; intros [ex [Hin Hb]]; exists ex; (split; [exact Hin|]).
  - apply truthy_false, negb_true_iff, Hb.
  - apply negb_true_iff, truthy_false, Hb.
Qed.

Lemma someExerciseBlank_false (st : AppState) :
  someExerciseBlank st = false <->
  Forall (fun ex => JsString.trim (name ex) <> EmptyString) (st_exercises st).
Proof.
  rewrite <- not_true_iff_false, someExerciseBlank_true, List.Forall_forall.
  split.
  - intros Hn ex Hin Hb. apply Hn. exists ex. tauto.
  - intros Hall [ex [Hin Hb]]. exact (Hall ex Hin Hb).
Qed.

Lemma nameBlank_false (st : AppState) :
  nameBlank st = false <-> JsString.trim (st_workoutName st) <> EmptyString.
Proof. rewrite <- not_true_iff_false, nameBlank_true. reflexivity. Qed.

(** The result of a commit that passes both guards. *)
Lemma handleSaveWorkout_valid (JSON_stringify : json -> string) (env : Env) (w : World) :
  JsString.trim (st_workoutName (state w)) <> EmptyString ->
  Forall (fun ex => JsString.trim (name ex) <> EmptyString) (st_exercises (state w)) ->
  let workout := {| id := workoutUUID env;
                    date := st_date (state w);
                    workoutName := JsString.trim (st_workoutName (state w));
                    exercises := st_exercises (state w);
                    createdAt := nowISO env |} in
  handleSaveWorkout JSON_stringify env w =
  {| state := {| st_tab := TabHistory;
                 st_workouts := workout :: st_workouts (state w);
                 st_date := todayYMD env;
                 st_workoutName := EmptyString;
                 st_exercises := [createExercise (exerciseUUID env)] |};
     localStorage :=
       <[STORAGE_KEY :=
           JSON_stringify (JArr (map workoutToJson (workout :: st_workouts (state w))))]>
         (localStorage w);
     alerts := alerts w |}.
Proof.
  intros Hname Hexs. unfold handleSaveWorkout.
  apply nameBlank_false in Hname. apply someExerciseBlank_false in Hexs.
  rewrite Hname, Hexs. reflexivity.
Qed.

(** C3. When the workout name is blank after trimming, or some exercise name
    is, the commit aborts: the component state (stored collection, draft name,
    date, exercises and their sets) and the store are what they were, and the
    one effect is a message added to those shown. *)
Theorem C3_commit_aborts_on_blank (JSON_stringify : json -> string) (env : Env) (w : World) :
  JsString.trim (st_workoutName (state w)) = EmptyString \/
  (exists ex, In ex (st_exercises (state w)) /\ JsString.trim (name ex) = EmptyString) ->
  let w' := handleSaveWorkout JSON_stringify env w in
  state w' = state w /\
  localStorage w' = localStorage w /\
  exists msg, alerts w' = (alerts w ++ [msg])%list.
Proof.
  intros Hblank w'. subst w'. unfold handleSaveWorkout.
  destruct (nameBlank (state w)) eqn:Hn.
  - simpl. eauto.
  - destruct (someExerciseBlank (state w)) eqn:He.
    + simpl. eauto.
    + exfalso. destruct Hblank as [Hb|Hb].
      * apply nameBlank_true in Hb. congruence.
      * apply someExerciseBlank_true in Hb. congruence.
Qed.

(** C3 on the draft named with three blanks. *)
Lemma C3_commit_aborts_on_blank_witness :
  state (handleSaveWorkout RefJSON.stringify sampleEnv blankNameWorld) = state blankNameWorld /\
  localStorage (handleSaveWorkout RefJSON.stringify sampleEnv blankNameWorld) = sampleStore /\
  exists msg, alerts (handleSaveWorkout RefJSON.stringify sampleEnv blankNameWorld)
              = ([] ++ [msg])%list.
Proof.
  apply (C3_commit_aborts_on_blank RefJSON.stringify sampleEnv blankNameWorld).
  left. reflexivity.
Defined.





(* ===================================================================== *)
(** ** Date order *)
(* ===================================================================== *)

Lemma StronglySorted_weaken {A} (R S : A -> A -> Prop) (l : list A) :
  (forall a b, In a l -> In b l -> R a b -> S a b) ->
  StronglySorted R l -> StronglySorted S l.
Proof.
  intros Himp Hs. induction Hs as [|a l Hs IH Hall].
  - constructor.
  - constructor.
    + apply IH. intros x y Hx Hy. apply Himp; right; assumption.
    + rewrite List.Forall_forall in Hall |- *. intros b Hb.
      apply Himp; [left; reflexivity|right; exact Hb|apply Hall, Hb].
Qed.



Section DateOrder.

Variable dayjs_valueOf : string -> number.

Lemma validDates_In (ws : list Workout) (w : Workout) :
  validDates dayjs_valueOf ws = true -> In w ws ->
  dayjs_valueOf (date w) = Some (timestamp dayjs_valueOf w).
Proof.
  unfold validDates, timestamp. rewrite forallb_forall. intros Hall Hin.
  specialize (Hall w Hin). destruct (dayjs_valueOf (date w)); [reflexivity|discriminate].
Qed.

Lemma sortedWorkouts_perm (ws : list Workout) :
  Permutation (sortedWorkouts dayjs_valueOf ws) ws.
Proof. apply arraySort_perm. Qed.

Lemma sortedWorkouts_by_timestamp (ws : list Workout) :
  validDates dayjs_valueOf ws = true ->
  StronglySorted (fun a b => timestamp dayjs_valueOf b <= timestamp dayjs_valueOf a)
                 (sortedWorkouts dayjs_valueOf ws).
Proof.
  intros Hv. apply (arraySort_sorted (byDateDesc dayjs_valueOf) (timestamp dayjs_valueOf)).
  intros x y Hx Hy. unfold byDateDesc.
  rewrite (validDates_In ws x Hv Hx), (validDates_In ws y Hv Hy). reflexivity.
Qed.

Lemma sortedWorkouts_descending (ws : list Workout) :
  validDates dayjs_valueOf ws = true ->
  dateDescending dayjs_valueOf (sortedWorkouts dayjs_valueOf ws).
Proof.
  intros Hv. unfold dateDescending.
  eapply StronglySorted_weaken; [|apply sortedWorkouts_by_timestamp, Hv].
  simpl. intros a b _ _ Hle x y Hx Hy.
  unfold timestamp in Hle. rewrite Hx, Hy in Hle. exact Hle.
Qed.

End DateOrder.

(** C7, as the code has it.  For every workout list [sortedWorkouts] is a
    permutation of the input, so each workout, two of the same date included,
    appears exactly once; when every workout's date is a valid calendar date
    the result is ordered by date, most recent first. *)
Theorem C7_sorted_by_date_descending (dayjs_valueOf : string -> number)
  (ws : list Workout) :
  Permutation (sortedWorkouts dayjs_valueOf ws) ws /\
  (validDates dayjs_valueOf ws = true ->
   dateDescending dayjs_valueOf (sortedWorkouts dayjs_valueOf ws)).
Proof.
  split; [apply sortedWorkouts_perm|apply sortedWorkouts_descending].
Qed.

(** C7 on four dated sessions, two of them of the same day. *)
Lemma C7_sorted_by_date_descending_witness :
  Permutation (sortedWorkouts RefDayjs.valueOf datedLog) datedLog /\
  dateDescending RefDayjs.valueOf (sortedWorkouts RefDayjs.valueOf datedLog).
Proof.
  split.
  - apply (C7_sorted_by_date_descending RefDayjs.valueOf datedLog).
  - apply (C7_sorted_by_date_descending RefDayjs.valueOf datedLog). reflexivity.
Defined.

(** Against C7 as stated: with a session whose date field was cleared between
    a January and a February session, the list comes back in the stored
    order, January before February, which is not most recent first. *)
Lemma C7_cleared_date_counterexample :
  validDates RefDayjs.valueOf clearedDateLog = false /\
  sortedWorkouts RefDayjs.valueOf clearedDateLog = clearedDateLog /\
  ~ dateDescending RefDayjs.valueOf (sortedWorkouts RefDayjs.valueOf clearedDateLog).
Proof.
  split; [reflexivity|]. split; [reflexivity|].
  change (sortedWorkouts RefDayjs.valueOf clearedDateLog) with clearedDateLog.
  unfold dateDescending, clearedDateLog. intros Hs.
  inversion Hs as [|? ? _ Hall]; subst.
  inversion Hall as [|? ? _ Hall']; subst.
  inversion Hall' as [|? ? Hab _]; subst.
  specialize (Hab 1704067200000 1706745600000 eq_refl eq_refl). lia.
Qed.

(* ===================================================================== *)
(** ** The time series *)
(* ===================================================================== *)

Section TimeSeries.

Variable dayjs_valueOf : string -> number.
Variable dayjs_format_MMM_D : string -> string.





End TimeSeries.



(* ===================================================================== *)
(** ** The draft editor *)
(* ===================================================================== *)

Lemma filter_all {A} (p : A -> bool) (l : list A) :
  (forall x, In x l -> p x = true) -> List.filter p l = l.
Proof.
  induction l as [|x l IH]; simpl; intros Hp; [reflexivity|].
  rewrite (Hp x (or_introl eq_refl)). f_equal. apply IH. intros y Hy. apply Hp. right. exact Hy.
Qed.

Lemma filter_id_length (exerciseId : string) (l : list ExerciseEntry) :
  NoDup (map ex_id l) ->
  (length l <= S (length (List.filter (fun ex => negb (String.eqb (ex_id ex) exerciseId)) l)))%nat.
Proof.
  induction l as [|x l IH]; simpl; intros Hnd; [lia|].
  apply NoDup_cons in Hnd as [Hout Hnd].
  destruct (String.eqb_spec (ex_id x) exerciseId) as [Heq|Hne]; simpl.
  - rewrite filter_all; [lia|].
    intros y Hy. destruct (String.eqb_spec (ex_id y) exerciseId) as [Hy'|]; [|reflexivity].
    exfalso. apply Hout, list_elem_of_In. rewrite Heq, <- Hy'. apply in_map, Hy.
  - specialize (IH Hnd). lia.
Qed.

Lemma filter_ids_NoDup (p : ExerciseEntry -> bool) (l : list ExerciseEntry) :
  NoDup (map ex_id l) -> NoDup (map ex_id (List.filter p l)).
Proof.
  induction l as [|x l IH]; simpl; intros Hnd; [exact Hnd|].
  apply NoDup_cons in Hnd as [Hout Hnd].
  destruct (p x); simpl; [|apply IH, Hnd].
  apply NoDup_cons. split; [|apply IH, Hnd].
  intros Hin. apply Hout. apply list_elem_of_In. apply list_elem_of_In in Hin.
  apply in_map_iff in Hin as [y [Hy Hin]]. apply filter_In in Hin as [Hin _].
  rewrite <- Hy. apply in_map, Hin.
Qed.

Lemma filterWithIndex_above {A} (k i : nat) (l : list A) :
  (k < i)%nat -> filterWithIndex (fun _ j => negb (j =? k)%nat) i l = l.
Proof.
  revert i. induction l as [|x l IH]; simpl; intros i Hi; [reflexivity|].
  destruct (Nat.eqb_spec i k); [lia|]. simpl. f_equal. apply IH. lia.
Qed.

Lemma filterWithIndex_length {A} (k i : nat) (l : list A) :
  (length l <= S (length (filterWithIndex (fun _ j => negb (j =? k)%nat) i l)))%nat.
Proof.
  revert i. induction l as [|x l IH]; simpl; intros i; [lia|].
  destruct (Nat.eqb_spec i k) as [->|Hne]; simpl.
  - rewrite filterWithIndex_above; lia.
  - specialize (IH (S i)). lia.
Qed.

Lemma mapWithIndex_length {A B} (f : A -> nat -> B) (i : nat) (l : list A) :
  length (mapWithIndex f i l) = length l.
Proof. revert i. induction l as [|x l IH]; simpl; intros i; [reflexivity|]. rewrite IH. reflexivity. Qed.

Lemma nonempty_length {A} (l : list A) : l <> [] <-> (0 < length l)%nat.
Proof. destruct l; simpl; split; intros; try congruence; lia. Qed.

(** An updater that maps over the exercises, keeping ids and non-empty set
    lists, keeps the invariant. *)
Lemma map_keeps_invariant (f : ExerciseEntry -> ExerciseEntry) (d : list ExerciseEntry) :
  (forall ex, ex_id (f ex) = ex_id ex) ->
  (forall ex, sets ex <> [] -> sets (f ex) <> []) ->
  draftInvariant d -> draftInvariant (map f d).
Proof.
  intros Hid Hsets (Hne & Hall & Hnd). split; [|split].
  - destruct d; [congruence|discriminate].
  - apply List.Forall_forall. intros ex Hin.
    apply in_map_iff in Hin as [ex0 [<- Hin0]].
    rewrite List.Forall_forall in Hall. apply Hsets, Hall, Hin0.
  - rewrite map_map. rewrite (map_ext _ ex_id Hid). exact Hnd.
Qed.

Lemma removeExercise_single (exerciseId : string) (prev : list ExerciseEntry) :
  length prev = 1%nat -> removeExercise exerciseId prev = prev.
Proof. intros Hl. unfold removeExercise. rewrite Hl. reflexivity. Qed.

Lemma removeSet_single (exerciseId : string) (setIndex : nat) (prev : list ExerciseEntry) :
  (forall ex, In ex prev -> ex_id ex = exerciseId -> length (sets ex) = 1%nat) ->
  removeSet exerciseId setIndex prev = prev.
Proof.
  intros Hone. unfold removeSet. rewrite <- (map_id prev) at 2.
  apply map_ext_in. intros ex Hin.
  destruct (String.eqb_spec (ex_id ex) exerciseId) as [Heq|Hne]; simpl; [|reflexivity].
  rewrite (Hone ex Hin Heq). reflexivity.
Qed.

Lemma applyOp_keeps_invariant (op : DraftOp) (d : list ExerciseEntry) :
  draftInvariant d -> freshFor op d -> draftInvariant (applyOp op d).
Proof.
  intros Hinv Hfresh. destruct op as [i n|u|i|i|i k|i k f v|u]; simpl.
  - apply map_keeps_invariant; [| |exact Hinv]; intros ex;
      destruct (String.eqb (ex_id ex) i); simpl; auto.
  - destruct Hinv as (Hne & Hall & Hnd). unfold addExercise. split; [|split].
    + destruct d; discriminate.
    + apply Forall_app. split; [exact Hall|]. repeat constructor. discriminate.
    + rewrite map_app. simpl. apply NoDup_app. split; [exact Hnd|]. split.
      * intros x Hx Hu. apply list_elem_of_In in Hx, Hu.
        destruct Hu as [<-|[]]. exact (Hfresh Hx).
      * apply NoDup_singleton.
  - destruct Hinv as (Hne & Hall & Hnd). unfold removeExercise.
    destruct (Nat.eqb_spec (length d) 1) as [|Hlen]; [repeat split; assumption|].
    split; [|split].
    + pose proof (filter_id_length i d Hnd) as Hlen'.
      apply nonempty_length. apply nonempty_length in Hne. lia.
    + rewrite List.Forall_forall in Hall |- *. intros ex Hin.
      apply filter_In in Hin as [Hin _]. apply Hall, Hin.
    + apply filter_ids_NoDup, Hnd.
  - apply map_keeps_invariant; [| |exact Hinv]; intros ex;
      destruct (String.eqb (ex_id ex) i); simpl; auto.
    intros _. destruct (sets ex); discriminate.
  - apply map_keeps_invariant; [| |exact Hinv]; intros ex;
      destruct (String.eqb (ex_id ex) i); simpl; auto;
      destruct (Nat.eqb_spec (length (sets ex)) 1) as [|Hlen]; simpl; auto.
    intros Hne. apply nonempty_length. apply nonempty_length in Hne.
    pose proof (filterWithIndex_length k 0 (sets ex)). lia.
  - apply map_keeps_invariant; [| |exact Hinv]; intros ex;
      destruct (String.eqb (ex_id ex) i); simpl; auto.
    intros Hne. apply nonempty_length. apply nonempty_length in Hne.
    rewrite mapWithIndex_length. exact Hne.
  - split; [discriminate|]. split; repeat constructor; try discriminate.
    intros Hin. apply list_elem_of_In in Hin. destruct Hin.
Qed.

Lemma reachableDraft_invariant (d : list ExerciseEntry) :
  reachableDraft d -> draftInvariant d.
Proof.
  intros Hr. induction Hr as [uuid|op prev Hr IH Hfresh].
  - split; [discriminate|]. split; repeat constructor; try discriminate.
    intros Hin. apply list_elem_of_In in Hin. destruct Hin.
  - apply applyOp_keeps_invariant; assumption.
Qed.

Lemma handleSaveWorkout_draft (JSON_stringify : json -> string) (env : Env) (w : World) :
  st_exercises (state (handleSaveWorkout JSON_stringify env w)) = st_exercises (state w) \/
  st_exercises (state (handleSaveWorkout JSON_stringify env w))
  = applyOp (OpReset (exerciseUUID env)) (st_exercises (state w)).
Proof.
  unfold handleSaveWorkout.
  destruct (nameBlank (state w)); [left; reflexivity|].
  destruct (someExerciseBlank (state w)); [left; reflexivity|right; reflexivity].
Qed.

(** C6. The removals refuse to drop the last element: on a draft with exactly
    one exercise [removeExercise] returns the draft unchanged, and when the
    exercise addressed has exactly one set [removeSet] returns the draft
    unchanged.  Hence every draft reached from the initial one by the draft
    operations (each new exercise getting a fresh id, and a commit either
    leaving the draft or resetting it) has at least one exercise, and each of
    its exercises has at least one set. *)
Theorem C6_removals_keep_drafts_nonempty :
  (forall exerciseId prev,
      length prev = 1%nat -> removeExercise exerciseId prev = prev) /\
  (forall exerciseId setIndex prev,
      (forall ex, In ex prev -> ex_id ex = exerciseId -> length (sets ex) = 1%nat) ->
      removeSet exerciseId setIndex prev = prev) /\
  (forall JSON_stringify env w,
      st_exercises (state (handleSaveWorkout JSON_stringify env w)) = st_exercises (state w) \/
      st_exercises (state (handleSaveWorkout JSON_stringify env w))
      = applyOp (OpReset (exerciseUUID env)) (st_exercises (state w))) /\
  (forall d, reachableDraft d ->
             (1 <= length d)%nat /\ Forall (fun ex => (1 <= length (sets ex))%nat) d).
Proof.
  split; [exact removeExercise_single|]. split; [exact removeSet_single|].
  split; [exact handleSaveWorkout_draft|].
  intros d Hr. destruct (reachableDraft_invariant d Hr) as (Hne & Hall & _).
  split; [apply nonempty_length, Hne|].
  eapply Forall_impl; [exact Hall|]. simpl. intros ex Hex. apply nonempty_length, Hex.
Qed.

(** C6 on the initial draft, and on the draft after adding a second exercise
    and removing it again. *)
Lemma C6_removals_keep_drafts_nonempty_witness :
  removeExercise "e1" [createExercise "e1"] = [createExercise "e1"] /\
  removeSet "e1" 0 [createExercise "e1"] = [createExercise "e1"] /\
  (1 <= length (applyOp (OpRemoveExercise "e2")
                  (applyOp (OpAddExercise "e2") [createExercise "e1"])))%nat.
Proof.
  destruct C6_removals_keep_drafts_nonempty as (H1 & H2 & _ & H4).
  split; [apply H1; reflexivity|]. split.
  - apply H2. intros ex [<-|[]] _. reflexivity.
  - apply H4. apply reach_step; [apply reach_step; [apply reach_init|]|exact I].
    simpl. intros [Heq|[]]. discriminate.
Defined.

(* ===================================================================== *)
(** ** More on the draft editor *)
(* ===================================================================== *)

Lemma exercise_eta (ex : ExerciseEntry) :
  {| ex_id := ex_id ex; name := name ex; sets := sets ex |} = ex.
Proof. destruct ex; reflexivity. Qed.

Lemma filter_id_length_exact (exerciseId : string) (l : list ExerciseEntry) :
  NoDup (map ex_id l) -> In exerciseId (map ex_id l) ->
  S (length (List.filter (fun ex => negb (String.eqb (ex_id ex) exerciseId)) l)) = length l.
Proof.
  induction l as [|x l IH]; simpl; intros Hnd Hin; [destruct Hin|].
  apply NoDup_cons in Hnd as [Hout Hnd].
  destruct (String.eqb_spec (ex_id x) exerciseId) as [Heq|Hne]; simpl.
  - rewrite filter_all; [reflexivity|].
    intros y Hy. destruct (String.eqb_spec (ex_id y) exerciseId) as [Hy'|]; [|reflexivity].
    exfalso. apply Hout, list_elem_of_In. rewrite Heq, <- Hy'. apply in_map, Hy.
  - f_equal. apply IH; [exact Hnd|]. destruct Hin; [contradiction|assumption].
Qed.

Lemma filter_sublist {A} (p : A -> bool) (l : list A) : sublist (List.filter p l) l.
Proof.
  induction l as [|x l IH]; simpl; [constructor|].
  destruct (p x); [apply sublist_skip|apply sublist_cons]; exact IH.
Qed.

Lemma filter_absent_id (exerciseId : string) (l : list ExerciseEntry) :
  ~ In exerciseId (map ex_id l) ->
  List.filter (fun ex => negb (String.eqb (ex_id ex) exerciseId)) l = l.
Proof.
  intros Hout. apply filter_all. intros y Hy.
  destruct (String.eqb_spec (ex_id y) exerciseId) as [Hy'|]; [|reflexivity].
  exfalso. apply Hout. rewrite <- Hy'. apply in_map, Hy.
Qed.

(** On a draft of two or more exercises with distinct ids, [removeExercise]
    takes out the exercise with the given id and nothing else: the others
    stay, in their order, and the draft is one shorter; an id that is not in
    the draft changes nothing. *)
Theorem removeExercise_removes_target (exerciseId : string) (prev : list ExerciseEntry) :
  NoDup (map ex_id prev) ->
  (2 <= length prev)%nat ->
  (forall ex, In ex (removeExercise exerciseId prev)
              <-> In ex prev /\ ex_id ex <> exerciseId) /\
  sublist (removeExercise exerciseId prev) prev /\
  (In exerciseId (map ex_id prev) ->
   S (length (removeExercise exerciseId prev)) = length prev) /\
  (~ In exerciseId (map ex_id prev) -> removeExercise exerciseId prev = prev).
Proof.
  intros Hnd Hlen. unfold removeExercise.
  destruct (Nat.eqb_spec (length prev) 1) as [|_]; [lia|].
  split; [|split; [|split]].
  - intros ex. rewrite filter_In.
    destruct (String.eqb_spec (ex_id ex) exerciseId); simpl; intuition congruence.
  - apply filter_sublist.
  - apply filter_id_length_exact, Hnd.
  - apply filter_absent_id.
Qed.

Lemma removeExercise_removes_target_witness :
  S (length (removeExercise "e2" [createExercise "e1"; createExercise "e2"])) = 2%nat.
Proof.
  apply (removeExercise_removes_target "e2" [createExercise "e1"; createExercise "e2"]).
  - apply (bool_decide_unpack _). vm_compute. exact I.
  - simpl. lia.
  - simpl. tauto.
Defined.

(** Adding an exercise and removing it again gives back the draft, when the
    new id is fresh and the draft was not empty. *)
Theorem removeExercise_addExercise (uuid : string) (prev : list ExerciseEntry) :
  prev <> [] ->
  ~ In uuid (map ex_id prev) ->
  removeExercise uuid (addExercise uuid prev) = prev.
Proof.
  intros Hne Hfresh. unfold removeExercise, addExercise.
  rewrite length_app. simpl.
  destruct (Nat.eqb_spec (length prev + 1) 1) as [Hl|_].
  - destruct prev; [congruence|simpl in Hl; lia].
  - rewrite List.filter_app, filter_absent_id by exact Hfresh.
    simpl. rewrite String.eqb_refl. simpl. apply app_nil_r.
Qed.

Lemma removeExercise_addExercise_witness :
  removeExercise "e2" (addExercise "e2" [createExercise "e1"]) = [createExercise "e1"].
Proof.
  apply (removeExercise_addExercise "e2" [createExercise "e1"]).
  - discriminate.
  - simpl. intros [H|[]]. discriminate.
Defined.

Lemma filterWithIndex_remove {A} (k i : nat) (l : list A) :
  (i <= k)%nat ->
  filterWithIndex (fun _ j => negb (j =? k)%nat) i l
  = (firstn (k - i) l ++ skipn (S (k - i)) l)%list.
Proof.
  revert i. induction l as [|x l IH]; intros i Hi; simpl.
  - destruct (k - i)%nat; reflexivity.
  - destruct (Nat.eqb_spec i k) as [->|Hne]; simpl.
    + rewrite Nat.sub_diag. simpl. apply filterWithIndex_above. lia.
    + rewrite IH by lia. replace (k - i)%nat with (S (k - S i)) by lia. reflexivity.
Qed.

Lemma remove_at_out_of_range {A} (k : nat) (l : list A) :
  (length l <= k)%nat -> (firstn k l ++ skipn (S k) l)%list = l.
Proof.
  intros Hk. rewrite firstn_all2 by exact Hk. rewrite skipn_all2 by lia. apply app_nil_r.
Qed.

(** [removeSet] removes by position: in every exercise with the given id
    that has more or fewer than one set, the set at [setIndex] is cut out and
    the sets before and after it keep their order; the other exercises, and
    the ids and names of all, are untouched.  An index past the end of every
    addressed set list changes nothing. *)
Theorem removeSet_by_position (exerciseId : string) (setIndex : nat)
  (prev : list ExerciseEntry) :
  removeSet exerciseId setIndex prev
  = map (fun ex =>
           if String.eqb (ex_id ex) exerciseId && negb (length (sets ex) =? 1)%nat
           then {| ex_id := ex_id ex; name := name ex;
                   sets := firstn setIndex (sets ex) ++ skipn (S setIndex) (sets ex) |}
           else ex) prev /\
  map ex_id (removeSet exerciseId setIndex prev) = map ex_id prev /\
  map name (removeSet exerciseId setIndex prev) = map name prev /\
  ((forall ex, In ex prev -> ex_id ex = exerciseId -> (length (sets ex) <= setIndex)%nat) ->
   removeSet exerciseId setIndex prev = prev) /\
  (forall ex, In ex prev -> ex_id ex <> exerciseId ->
              In ex (removeSet exerciseId setIndex prev)).
Proof.
  assert (Hmap : removeSet exerciseId setIndex prev
          = map (fun ex =>
               if String.eqb (ex_id ex) exerciseId && negb (length (sets ex) =? 1)%nat
               then {| ex_id := ex_id ex; name := name ex;
                       sets := firstn setIndex (sets ex) ++ skipn (S setIndex) (sets ex) |}
               else ex) prev).
  { unfold removeSet. apply map_ext. intros ex.
    destruct (String.eqb (ex_id ex) exerciseId); simpl; [|reflexivity].
    destruct (length (sets ex) =? 1)%nat; simpl; [reflexivity|].
    rewrite filterWithIndex_remove by lia. rewrite Nat.sub_0_r. reflexivity. }
  split; [exact Hmap|]. rewrite Hmap. split; [|split; [|split]].
  - rewrite map_map. apply map_ext. intros ex.
    destruct (_ && _); reflexivity.
  - rewrite map_map. apply map_ext. intros ex.
    destruct (_ && _); reflexivity.
  - intros Hout. rewrite <- (map_id prev) at 2. apply map_ext_in. intros ex Hin.
    destruct (String.eqb_spec (ex_id ex) exerciseId) as [Heq|]; simpl; [|reflexivity].
    destruct (length (sets ex) =? 1)%nat; simpl; [reflexivity|].
    rewrite remove_at_out_of_range by (apply Hout; assumption). apply exercise_eta.
  - intros ex Hin Hne. apply in_map_iff. exists ex. split; [|exact Hin].
    destruct (String.eqb_spec (ex_id ex) exerciseId); [contradiction|reflexivity].
Qed.

Lemma removeSet_by_position_witness :
  removeSet "e1" 5 [mkExercise "e1" "Row" [createSet; createSet]]
  = [mkExercise "e1" "Row" [createSet; createSet]].
Proof.
  apply (removeSet_by_position "e1" 5 [mkExercise "e1" "Row" [createSet; createSet]]).
  intros ex [<-|[]] _. simpl. lia.
Defined.

(** Adding a set to an exercise and removing the set at the position it was
    given restores the draft, when every exercise with that id had [n] sets
    and [n] is at least one. *)
Theorem removeSet_addSet (exerciseId : string) (n : nat) (prev : list ExerciseEntry) :
  (1 <= n)%nat ->
  (forall ex, In ex prev -> ex_id ex = exerciseId -> length (sets ex) = n) ->
  removeSet exerciseId n (addSet exerciseId prev) = prev.
Proof.
  intros Hn Hlen. unfold removeSet, addSet. rewrite map_map.
  rewrite <- (map_id prev) at 2. apply map_ext_in. intros ex Hin.
  destruct (String.eqb_spec (ex_id ex) exerciseId) as [Heq|Hne]; simpl.
  - rewrite Heq, String.eqb_refl. simpl. rewrite length_app. simpl.
    rewrite (Hlen ex Hin Heq).
    destruct (Nat.eqb_spec (n + 1) 1) as [|_]; [lia|].
    rewrite filterWithIndex_remove by lia. rewrite Nat.sub_0_r.
    rewrite <- (Hlen ex Hin Heq) at 1 2.
    rewrite firstn_app, Nat.sub_diag, firstn_all. simpl.
    rewrite skipn_all2 by (rewrite length_app; simpl; lia).
    rewrite !app_nil_r. rewrite <- Heq. apply exercise_eta.
  - destruct (String.eqb_spec (ex_id ex) exerciseId); [contradiction|reflexivity].
Qed.

Lemma removeSet_addSet_witness :
  removeSet "e1" 1 (addSet "e1" [createExercise "e1"]) = [createExercise "e1"].
Proof.
  apply (removeSet_addSet "e1" 1 [createExercise "e1"]); [lia|].
  intros ex [<-|[]] _. reflexivity.
Defined.

Lemma mapWithIndex_nth {A} (f : A -> A) (k i : nat) (l : list A) (j : nat) :
  nth_error (mapWithIndex (fun x n => if (n =? k)%nat then f x else x) i l) j
  = if (i + j =? k)%nat then option_map f (nth_error l j) else nth_error l j.
Proof.
  revert i j. induction l as [|x l IH]; intros i j; simpl.
  - destruct j; simpl; destruct (_ =? _)%nat; reflexivity.
  - destruct j as [|j]; simpl.
    + rewrite Nat.add_0_r. destruct (i =? k)%nat; reflexivity.
    + rewrite IH. replace (S i + j)%nat with (i + S j)%nat by lia. reflexivity.
Qed.

Lemma mapWithIndex_out_of_range {A} (f : A -> A) (k i : nat) (l : list A) :
  (i + length l <= k)%nat ->
  mapWithIndex (fun x n => if (n =? k)%nat then f x else x) i l = l.
Proof.
  revert i. induction l as [|x l IH]; intros i Hk; simpl; [reflexivity|].
  simpl in Hk. destruct (Nat.eqb_spec i k); [lia|]. f_equal. apply IH. lia.
Qed.

(** [updateSet] writes one field of one set: in the exercises with the given
    id the set at [setIndex] gets [value] in [field] and keeps its other
    field, every other set is as before, and no set is added or removed;
    exercises with another id, and all ids and names, are untouched.  An
    index past the end of the addressed set lists changes nothing. *)
Theorem updateSet_writes_one_field (exerciseId : string) (setIndex : nat)
  (field : SetField) (value : number) (prev : list ExerciseEntry) :
  map ex_id (updateSet exerciseId setIndex field value prev) = map ex_id prev /\
  map name (updateSet exerciseId setIndex field value prev) = map name prev /\
  map (fun ex => length (sets ex)) (updateSet exerciseId setIndex field value prev)
  = map (fun ex => length (sets ex)) prev /\
  (forall n ex, nth_error prev n = Some ex ->
     exists ex', nth_error (updateSet exerciseId setIndex field value prev) n = Some ex' /\
       forall j, nth_error (sets ex') j
                 = if String.eqb (ex_id ex) exerciseId && (j =? setIndex)%nat
                   then option_map (fun s => setField s field value) (nth_error (sets ex) j)
                   else nth_error (sets ex) j) /\
  (forall s, weight (setField s FieldReps value) = weight s /\
             reps (setField s FieldReps value) = value /\
             reps (setField s FieldWeight value) = reps s /\
             weight (setField s FieldWeight value) = value) /\
  ((forall ex, In ex prev -> ex_id ex = exerciseId -> (length (sets ex) <= setIndex)%nat) ->
   updateSet exerciseId setIndex field value prev = prev).
Proof.
  unfold updateSet. split; [|split; [|split; [|split; [|split]]]].
  - rewrite map_map. apply map_ext. intros ex. destruct (negb _); reflexivity.
  - rewrite map_map. apply map_ext. intros ex. destruct (negb _); reflexivity.
  - rewrite map_map. apply map_ext. intros ex. destruct (negb _); simpl; [reflexivity|].
    apply mapWithIndex_length.
  - intros n ex Hn. rewrite nth_error_map, Hn. simpl. eexists. split; [reflexivity|].
    intros j. destruct (String.eqb (ex_id ex) exerciseId); simpl; [|reflexivity].
    rewrite (mapWithIndex_nth (fun s => setField s field value)). reflexivity.
  - intros s. repeat split.
  - intros Hout. rewrite <- (map_id prev) at 2. apply map_ext_in. intros ex Hin.
    destruct (String.eqb_spec (ex_id ex) exerciseId) as [Heq|]; simpl; [|reflexivity].
    rewrite (mapWithIndex_out_of_range (fun s => setField s field value))
      by (simpl; apply Hout; assumption).
    apply exercise_eta.
Qed.

Lemma updateSet_writes_one_field_witness :
  updateSet "e1" 3 FieldReps (Some 12) [createExercise "e1"] = [createExercise "e1"].
Proof.
  apply (updateSet_writes_one_field "e1" 3 FieldReps (Some 12) [createExercise "e1"]).
  intros ex [<-|[]] _. simpl. lia.
Defined.

Lemma setsVolume_app (l1 l2 : list SetEntry) :
  setsVolume (l1 ++ l2) = setsVolume l1 + setsVolume l2.
Proof. rewrite !setsVolume_sum, map_app, sumZ_app. reflexivity. Qed.

Lemma setsReps_app (l1 l2 : list SetEntry) :
  setsReps (l1 ++ l2) = setsReps l1 + setsReps l2.
Proof. rewrite !setsReps_sum, map_app, sumZ_app. reflexivity. Qed.

(** The set [addSet] appends is the default one, 10 reps at weight 0: it adds
    nothing to the volume of any exercise and 10 to the reps of the exercises
    with the given id, and leaves all ids and names as they are. *)
Theorem addSet_adds_ten_reps_no_volume (exerciseId : string) (prev : list ExerciseEntry) :
  map (fun ex => setsVolume (sets ex)) (addSet exerciseId prev)
  = map (fun ex => setsVolume (sets ex)) prev /\
  map (fun ex => setsReps (sets ex)) (addSet exerciseId prev)
  = map (fun ex => setsReps (sets ex) + if String.eqb (ex_id ex) exerciseId then 10 else 0)
        prev /\
  map (fun ex => length (sets ex)) (addSet exerciseId prev)
  = map (fun ex => (length (sets ex) + if String.eqb (ex_id ex) exerciseId then 1 else 0)%nat)
        prev /\
  map ex_id (addSet exerciseId prev) = map ex_id prev /\
  map name (addSet exerciseId prev) = map name prev.
Proof.
  unfold addSet. rewrite !map_map.
  assert (Hv : setsVolume [createSet] = 0) by reflexivity.
  assert (Hr : setsReps [createSet] = 10) by reflexivity.
  split; [|split; [|split; [|split]]]; apply map_ext; intros ex;
    destruct (String.eqb (ex_id ex) exerciseId); simpl; try reflexivity;
    rewrite ?setsVolume_app, ?setsReps_app, ?length_app, ?Hv, ?Hr; simpl; lia.
Qed.

(** Renaming touches names only: ids and sets of all exercises stay, the
    exercises with the given id get the new name and the others keep theirs;
    of two renamings of the same id the later one decides; an id that is not
    in the draft changes nothing. *)
Theorem updateExerciseName_renames (exerciseId n1 n2 : string) (prev : list ExerciseEntry) :
  map ex_id (updateExerciseName exerciseId n1 prev) = map ex_id prev /\
  map sets (updateExerciseName exerciseId n1 prev) = map sets prev /\
  map name (updateExerciseName exerciseId n1 prev)
  = map (fun ex => if String.eqb (ex_id ex) exerciseId then n1 else name ex) prev /\
  updateExerciseName exerciseId n2 (updateExerciseName exerciseId n1 prev)
  = updateExerciseName exerciseId n2 prev /\
  (~ In exerciseId (map ex_id prev) -> updateExerciseName exerciseId n1 prev = prev).
Proof.
  unfold updateExerciseName. rewrite !map_map.
  split; [|split; [|split; [|split]]];
    try (apply map_ext; intros ex; destruct (String.eqb (ex_id ex) exerciseId) eqn:E;
         simpl; rewrite ?E; reflexivity).
  intros Hout. rewrite <- (map_id prev) at 2. apply map_ext_in. intros ex Hin.
  destruct (String.eqb_spec (ex_id ex) exerciseId) as [Heq|]; [|reflexivity].
  exfalso. apply Hout. rewrite <- Heq. apply in_map, Hin.
Qed.

Lemma updateExerciseName_renames_witness :
  updateExerciseName "e9" "Row" [createExercise "e1"] = [createExercise "e1"].
Proof.
  apply (updateExerciseName_renames "e9" "Row" "Row" [createExercise "e1"]).
  simpl. intros [H|[]]. discriminate.
Defined.

(** Every draft reached from the initial one by the draft operations, new
    exercises getting fresh ids, has pairwise distinct exercise ids. *)
Theorem reachableDraft_distinct_ids (d : list ExerciseEntry) :
  reachableDraft d -> NoDup (map ex_id d).
Proof. intros Hr. apply (reachableDraft_invariant d Hr). Qed.

Lemma reachableDraft_distinct_ids_witness :
  NoDup (map ex_id (applyOp (OpRename "e1" "Row")
                      (applyOp (OpAddExercise "e2") [createExercise "e1"]))).
Proof.
  apply reachableDraft_distinct_ids.
  apply reach_step; [apply reach_step; [apply reach_init|]|exact I].
  simpl. intros [H|[]]. discriminate.
Defined.

(* ===================================================================== *)
(** ** More on the sort *)
(* ===================================================================== *)

Section ArraySortByKey.

Context {A : Type}.
Variable comparefn : A -> A -> number.
Variable key : A -> Z.

Lemma insertSorted_filter_key (t : Z) (x : A) (l : list A) :
  (forall y, In y l -> comparefn x y = Some (key y - key x)) ->
  List.filter (fun a => key a =? t) (insertSorted comparefn x l)
  = List.filter (fun a => key a =? t) (x :: l).
Proof.
  induction l as [|y l IH]; intros Hc; [reflexivity|].
  simpl insertSorted. rewrite (Hc y (or_introl eq_refl)). simpl compareValue.
  destruct (Z.leb_spec (key y - key x) 0) as [_|Hgt]; [reflexivity|].
  change (List.filter (fun a => key a =? t) (y :: insertSorted comparefn x l))
    with (if key y =? t then y :: List.filter (fun a => key a =? t) (insertSorted comparefn x l)
          else List.filter (fun a => key a =? t) (insertSorted comparefn x l)).
  rewrite IH by (intros z Hz; apply Hc; right; exact Hz).
  simpl. destruct (Z.eqb_spec (key y) t) as [Hy|Hy];
    destruct (Z.eqb_spec (key x) t) as [Hx|Hx]; try reflexivity. lia.
Qed.

Lemma arraySort_filter_key (t : Z) (l : list A) :
  (forall x y, In x l -> In y l -> comparefn x y = Some (key y - key x)) ->
  List.filter (fun a => key a =? t) (arraySort comparefn l)
  = List.filter (fun a => key a =? t) l.
Proof.
  induction l as [|x l IH]; intros Hc; [reflexivity|].
  simpl arraySort. rewrite insertSorted_filter_key.
  - simpl. rewrite IH; [reflexivity|]. intros a b Ha Hb. apply Hc; right; assumption.
  - intros y Hy. apply Hc; [left; reflexivity|].
    right. eapply Permutation_in; [apply arraySort_perm|exact Hy].
Qed.

Lemma arraySort_of_sorted (l : list A) :
  (forall x y, In x l -> In y l -> comparefn x y = Some (key y - key x)) ->
  StronglySorted (fun a b => key b <= key a) l ->
  arraySort comparefn l = l.
Proof.
  intros Hc Hs. induction Hs as [|x l Hs IH Hall]; [reflexivity|].
  simpl. rewrite IH by (intros a b Ha Hb; apply Hc; right; assumption).
  destruct l as [|y l]; [reflexivity|]. simpl.
  rewrite (Hc x y (or_introl eq_refl) (or_intror (or_introl eq_refl))). simpl.
  inversion Hall as [|? ? Hy _]; subst.
  destruct (Z.leb_spec (key y - key x) 0); [reflexivity|lia].
Qed.

End ArraySortByKey.

Section SortedWorkoutsFacts.

Variable dayjs_valueOf : string -> number.

Lemma byDateDesc_valid (ws : list Workout) (x y : Workout) :
  validDates dayjs_valueOf ws = true -> In x ws -> In y ws ->
  byDateDesc dayjs_valueOf x y
  = Some (timestamp dayjs_valueOf y - timestamp dayjs_valueOf x).
Proof.
  intros Hv Hx Hy. unfold byDateDesc.
  rewrite (validDates_In dayjs_valueOf ws x Hv Hx), (validDates_In dayjs_valueOf ws y Hv Hy).
  reflexivity.
Qed.

Lemma validDates_perm (l l' : list Workout) :
  Permutation l l' -> validDates dayjs_valueOf l' = true -> validDates dayjs_valueOf l = true.
Proof.
  unfold validDates. rewrite !forallb_forall. intros Hp Hall w Hw.
  apply Hall. eapply Permutation_in; [exact Hp|exact Hw].
Qed.


End SortedWorkoutsFacts.

(** The sort by date is stable: with valid dates, the workouts of one date
    come out in the order in which they are stored. *)
Theorem sortedWorkouts_stable (dayjs_valueOf : string -> number) (ws : list Workout)
  (t : Z) :
  validDates dayjs_valueOf ws = true ->
  withTimestamp dayjs_valueOf t (sortedWorkouts dayjs_valueOf ws)
  = withTimestamp dayjs_valueOf t ws.
Proof.
  intros Hv. unfold withTimestamp, sortedWorkouts.
  apply (arraySort_filter_key (byDateDesc dayjs_valueOf) (timestamp dayjs_valueOf)).
  intros x y. apply byDateDesc_valid, Hv.
Qed.

Lemma sortedWorkouts_stable_witness :
  map id (withTimestamp RefDayjs.valueOf 1704067200000
            (sortedWorkouts RefDayjs.valueOf datedLog)) = ["a"; "d"].
Proof.
  rewrite (sortedWorkouts_stable RefDayjs.valueOf datedLog 1704067200000); reflexivity.
Defined.

(** Sorting is idempotent on valid dates: a list that is already most recent
    first is returned as it is, so sorting the sorted list changes nothing. *)
Theorem sortedWorkouts_idempotent (dayjs_valueOf : string -> number) (ws : list Workout) :
  validDates dayjs_valueOf ws = true ->
  (StronglySorted (fun a b => timestamp dayjs_valueOf b <= timestamp dayjs_valueOf a) ws ->
   sortedWorkouts dayjs_valueOf ws = ws) /\
  sortedWorkouts dayjs_valueOf (sortedWorkouts dayjs_valueOf ws)
  = sortedWorkouts dayjs_valueOf ws.
Proof.
  intros Hv. split.
  - intros Hs. apply (arraySort_of_sorted _ (timestamp dayjs_valueOf)); [|exact Hs].
    intros x y. apply byDateDesc_valid, Hv.
  - apply (arraySort_of_sorted _ (timestamp dayjs_valueOf)).
    + intros x y. apply byDateDesc_valid.
      eapply validDates_perm; [apply sortedWorkouts_perm|exact Hv].
    + apply sortedWorkouts_by_timestamp, Hv.
Qed.

Lemma sortedWorkouts_idempotent_witness :
  sortedWorkouts RefDayjs.valueOf (sortedWorkouts RefDayjs.valueOf datedLog)
  = sortedWorkouts RefDayjs.valueOf datedLog.
Proof.
  apply (sortedWorkouts_idempotent RefDayjs.valueOf datedLog). reflexivity.
Defined.



(* ===================================================================== *)
(** ** More on the per-exercise totals *)
(* ===================================================================== *)
















Lemma addExerciseToMap_length (m : list (string * Group)) (ex : ExerciseEntry) :
  (length (addExerciseToMap m ex) <= S (length m))%nat.
Proof.
  unfold addExerciseToMap. destruct (negb _); [lia|].
  generalize (exerciseKey ex). intros k. match goal with |- context [mapSet m k ?v] => generalize v end.
  intros v. induction m as [|[k0 g0] m IH]; simpl; [lia|].
  destruct (String.eqb k0 k); simpl; lia.
Qed.

Lemma fold_addExercise_length (es : list ExerciseEntry) (m : list (string * Group)) :
  (length (fold_left addExerciseToMap es m) <= length m + length es)%nat.
Proof.
  revert m. induction es as [|e es IH]; intros m; simpl; [lia|].
  specialize (IH (addExerciseToMap m e)).
  pose proof (addExerciseToMap_length m e). lia.
Qed.

Lemma exerciseBars_length (ws : list Workout) :
  length (exerciseBars ws) = Nat.min 10 (length (byExercise ws)).
Proof.
  unfold exerciseBars, mapValues.
  rewrite length_map, length_firstn, arraySort_length, length_map. reflexivity.
Qed.

Lemma counted_key (ex : ExerciseEntry) :
  counted ex = false <-> JsString.trim (name ex) = EmptyString.
Proof.
  unfold counted. rewrite truthy_false. symmetry. apply exerciseKey_blank.
Qed.

(** The bar chart never shows more than ten bars nor more bars than there
    are exercise entries, and it is empty exactly when every entry of every
    workout has a blank name (in particular when there is no workout). *)
Theorem exerciseBars_bounds (ws : list Workout) :
  (length (exerciseBars ws) <= 10)%nat /\
  (length (exerciseBars ws) <= length (allEntries ws))%nat /\
  (exerciseBars ws = [] <->
   forall ex, In ex (allEntries ws) -> JsString.trim (name ex) = EmptyString).
Proof.
  rewrite exerciseBars_length. split; [lia|]. split.
  - rewrite byExercise_flat.
    pose proof (fold_addExercise_length (allEntries ws) []) as Hlen.
    change (length (@nil (string * Group))) with 0%nat in Hlen. lia.
  - rewrite <- length_zero_iff_nil, exerciseBars_length. split.
    + intros Hlen ex Hin. apply counted_key. destruct (counted ex) eqn:Hc; [|reflexivity].
      exfalso.
      assert (Hnil : byExercise ws = []).
      { destruct (byExercise ws); [reflexivity|simpl in Hlen; lia]. }
      pose proof (byExercise_get ws (exerciseKey ex)) as Hg. rewrite Hnil in Hg.
      unfold groupOf in Hg. unfold counted in Hc. rewrite Hc in Hg. simpl in Hg.
      assert (Hin' : In ex (entriesOf (exerciseKey ex) ws)).
      { unfold entriesOf. apply filter_In. split; [exact Hin|apply String.eqb_refl]. }
      destruct (entriesOf (exerciseKey ex) ws); [destruct Hin'|discriminate].
    + intros Hall. rewrite byExercise_flat.
      assert (Hfold : forall es m, (forall ex, In ex es -> counted ex = false) ->
                                   fold_left addExerciseToMap es m = m).
      { induction es as [|e es IH]; intros m He; simpl; [reflexivity|].
        unfold addExerciseToMap at 2. unfold counted in He.
        rewrite (He e (or_introl eq_refl)). simpl.
        apply IH. intros ex Hex. apply He. right. exact Hex. }
      rewrite Hfold; [reflexivity|].
      intros ex Hin. apply counted_key, Hall, Hin.
Qed.

Section Charts.

Variable dayjs_valueOf : string -> number.
Variable dayjs_format_MMM_D : string -> string.


End Charts.



(* ===================================================================== *)
(** ** More on the grouping key *)
(* ===================================================================== *)

Lemma isWhiteSpace_lowerChar (c : ascii) :
  JsString.isWhiteSpace (JsString.lowerChar c) = JsString.isWhiteSpace c.
Proof.
  destruct c as [b0 b1 b2 b3 b4 b5 b6 b7].
  destruct b0, b1, b2, b3, b4, b5, b6, b7; reflexivity.
Qed.

Lemma lowerChar_idem (c : ascii) :
  JsString.lowerChar (JsString.lowerChar c) = JsString.lowerChar c.
Proof.
  destruct c as [b0 b1 b2 b3 b4 b5 b6 b7].
  destruct b0, b1, b2, b3, b4, b5, b6, b7; reflexivity.
Qed.

Lemma toLowerCase_idem (s : string) :
  JsString.toLowerCase (JsString.toLowerCase s) = JsString.toLowerCase s.
Proof. induction s as [|c s IH]; simpl; [reflexivity|]. rewrite lowerChar_idem, IH. reflexivity. Qed.

Lemma toLowerCase_trimStart (s : string) :
  JsString.toLowerCase (JsString.trimStart s) = JsString.trimStart (JsString.toLowerCase s).
Proof.
  induction s as [|c s IH]; simpl; [reflexivity|].
  rewrite isWhiteSpace_lowerChar. destruct (JsString.isWhiteSpace c); [exact IH|reflexivity].
Qed.

Lemma toLowerCase_trimEnd (s : string) :
  JsString.toLowerCase (JsString.trimEnd s) = JsString.trimEnd (JsString.toLowerCase s).
Proof.
  induction s as [|c s IH]; simpl; [reflexivity|].
  rewrite <- IH, isWhiteSpace_lowerChar.
  destruct (JsString.trimEnd s) as [|c' r]; simpl.
  - destruct (JsString.isWhiteSpace c); reflexivity.
  - reflexivity.
Qed.

Lemma toLowerCase_trim (s : string) :
  JsString.toLowerCase (JsString.trim s) = JsString.trim (JsString.toLowerCase s).
Proof. unfold JsString.trim. rewrite toLowerCase_trimEnd, toLowerCase_trimStart. reflexivity. Qed.

Lemma trimEnd_idem (s : string) : JsString.trimEnd (JsString.trimEnd s) = JsString.trimEnd s.
Proof.
  induction s as [|c s IH]; simpl; [reflexivity|].
  destruct (JsString.trimEnd s) as [|c' r] eqn:E.
  - destruct (JsString.isWhiteSpace c) eqn:Hc; simpl; [reflexivity|]. rewrite Hc. reflexivity.
  - change (JsString.trimEnd (String c (String c' r)))
      with (match JsString.trimEnd (String c' r) with
            | EmptyString => if JsString.isWhiteSpace c then EmptyString
                             else String c EmptyString
            | r' => String c r'
            end).
    rewrite IH. reflexivity.
Qed.

Lemma trimStart_head (s : string) :
  match JsString.trimStart s with
  | EmptyString => True
  | String c _ => JsString.isWhiteSpace c = false
  end.
Proof.
  induction s as [|c s IH]; simpl; [exact I|].
  destruct (JsString.isWhiteSpace c) eqn:Hc; [exact IH|exact Hc].
Qed.

Lemma trimStart_trimEnd (s : string) :
  match s with EmptyString => True | String c _ => JsString.isWhiteSpace c = false end ->
  JsString.trimStart (JsString.trimEnd s) = JsString.trimEnd s.
Proof.
  destruct s as [|c s]; [reflexivity|]. intros Hc. simpl.
  destruct (JsString.trimEnd s); rewrite ?Hc; simpl; rewrite Hc; reflexivity.
Qed.

Lemma trim_idem (s : string) : JsString.trim (JsString.trim s) = JsString.trim s.
Proof.
  unfold JsString.trim.
  rewrite (trimStart_trimEnd (JsString.trimStart s) (trimStart_head s)).
  apply trimEnd_idem.
Qed.

Lemma trimStart_allWhiteSpace (s : string) :
  allWhiteSpace s = true -> JsString.trimStart s = EmptyString.
Proof.
  induction s as [|c s IH]; simpl; [reflexivity|].
  destruct (JsString.isWhiteSpace c); simpl; [exact IH|discriminate].
Qed.

Lemma trimEnd_allWhiteSpace (s : string) :
  allWhiteSpace s = true -> JsString.trimEnd s = EmptyString.
Proof.
  induction s as [|c s IH]; simpl; [reflexivity|].
  destruct (JsString.isWhiteSpace c); simpl; [|discriminate].
  intros Hs. rewrite (IH Hs). reflexivity.
Qed.

Lemma trimEnd_append (s post : string) :
  allWhiteSpace post = true ->
  JsString.trimEnd (String.append s post) = JsString.trimEnd s.
Proof.
  intros Hp. induction s as [|c s IH]; simpl.
  - apply trimEnd_allWhiteSpace, Hp.
  - rewrite IH. reflexivity.
Qed.

Lemma trim_append (pre s post : string) :
  allWhiteSpace pre = true -> allWhiteSpace post = true ->
  JsString.trim (String.append pre (String.append s post)) = JsString.trim s.
Proof.
  intros Hpre Hpost. unfold JsString.trim.
  induction pre as [|c pre IH].
  - change (String.append EmptyString (String.append s post)) with (String.append s post).
    clear Hpre. induction s as [|c s IH].
    + change (String.append EmptyString post) with post.
      rewrite (trimStart_allWhiteSpace post Hpost). reflexivity.
    + change (String.append (String c s) post) with (String c (String.append s post)).
      simpl JsString.trimStart.
      destruct (JsString.isWhiteSpace c); [exact IH|].
      apply (trimEnd_append (String c s) post Hpost).
  - change (String.append (String c pre) (String.append s post))
      with (String c (String.append pre (String.append s post))).
    simpl in Hpre. simpl JsString.trimStart.
    destruct (JsString.isWhiteSpace c); simpl in Hpre; [|discriminate].
    apply IH, Hpre.
Qed.

(** The grouping key ignores letter case and surrounding white space: two
    entries whose names differ only in case, or only by white space before
    and after, get the same key, and the key of a key is the key itself. *)
Theorem exerciseKey_ignores_case_and_blanks :
  (forall a b, JsString.toLowerCase (name a) = JsString.toLowerCase (name b) ->
               exerciseKey a = exerciseKey b) /\
  (forall i ss n pre post,
      allWhiteSpace pre = true -> allWhiteSpace post = true ->
      exerciseKey (mkExercise i (String.append pre (String.append n post)) ss)
      = exerciseKey (mkExercise i n ss)) /\
  (forall ex, exerciseKey (mkExercise (ex_id ex) (exerciseKey ex) (sets ex)) = exerciseKey ex).
Proof.
  unfold exerciseKey. simpl. split; [|split].
  - intros a b Hab. rewrite !toLowerCase_trim, Hab. reflexivity.
  - intros i ss n pre post Hpre Hpost. rewrite trim_append by assumption. reflexivity.
  - intros ex.
    rewrite <- (toLowerCase_trim (JsString.trim (name ex))), toLowerCase_idem, trim_idem.
    reflexivity.
Qed.

Lemma exerciseKey_ignores_case_and_blanks_witness :
  exerciseKey (mkExercise "e1" "BENCH" []) = exerciseKey (mkExercise "e2" "bench" []) /\
  exerciseKey (mkExercise "e1" (String.append "  " (String.append "Bench" " ")) [])
  = exerciseKey (mkExercise "e1" "Bench" []).
Proof.
  destruct exerciseKey_ignores_case_and_blanks as (H1 & H2 & _).
  split; [apply H1; reflexivity|apply H2; reflexivity].
Defined.

(* ===================================================================== *)
(** ** More on the store and the stored collection *)
(* ===================================================================== *)

(** What [loadWorkouts] returns on a blob that parses to an array is that
    array, element for element: nothing checks that an element is a workout.
    An empty string under the key gives the empty list without [JSON.parse]
    being consulted. *)
Theorem loadWorkouts_returns_parsed_array (JSON_parse : string -> result json)
  (ls : gmap string string) :
  (forall raw items,
      ls !! STORAGE_KEY = Some raw -> raw <> EmptyString ->
      JSON_parse raw = Ok (JArr items) ->
      loadWorkouts JSON_parse ls = Ok items) /\
  (ls !! STORAGE_KEY = Some EmptyString -> loadWorkouts JSON_parse ls = Ok []).
Proof.
  split.
  - intros raw items Hraw Hne Hp.
    rewrite (loadWorkouts_present JSON_parse ls raw Hraw), Hp; [reflexivity|].
    destruct raw; [congruence|reflexivity].
  - intros Hraw. unfold loadWorkouts. rewrite Hraw. reflexivity.
Qed.

Lemma loadWorkouts_returns_parsed_array_witness :
  loadWorkouts RefJSON.parse {[ STORAGE_KEY := "[1, null]" ]} = Ok [JNum 1; JNull].
Proof.
  apply (proj1 (loadWorkouts_returns_parsed_array RefJSON.parse
                  {[ STORAGE_KEY := "[1, null]" ]}) "[1, null]");
    [vm_compute; reflexivity|discriminate|vm_compute; reflexivity].
Defined.

Lemma filter_absent_workout (workoutId : string) (l : list Workout) :
  ~ In workoutId (map id l) ->
  List.filter (fun x => negb (String.eqb (id x) workoutId)) l = l.
Proof.
  intros Hout. apply filter_all. intros y Hy.
  destruct (String.eqb_spec (id y) workoutId) as [Hy'|]; [|reflexivity].
  exfalso. apply Hout. rewrite <- Hy'. apply in_map, Hy.
Qed.





(* ===================================================================== *)
(** ** Invariants of the component *)
(* ===================================================================== *)

Section ComponentInvariants.

Variable JSON_stringify : json -> string.

Lemma handleSaveWorkout_cases (env : Env) (w : World) :
  (state (handleSaveWorkout JSON_stringify env w) = state w /\
   localStorage (handleSaveWorkout JSON_stringify env w) = localStorage w) \/
  (JsString.trim (st_workoutName (state w)) <> EmptyString /\
   Forall (fun ex => JsString.trim (name ex) <> EmptyString) (st_exercises (state w))).
Proof.
  destruct (nameBlank (state w)) eqn:Hn.
  - left. unfold handleSaveWorkout. rewrite Hn. split; reflexivity.
  - destruct (someExerciseBlank (state w)) eqn:He.
    + left. unfold handleSaveWorkout. rewrite Hn, He. split; reflexivity.
    + right. split; [apply nameBlank_false, Hn|apply someExerciseBlank_false, He].
Qed.


(** The draft and the stored collection are well formed together. *)
Lemma step_keeps_wellformed (ev : AppEvent) (w : World) :
  eventOk ev w ->
  draftInvariant (st_exercises (state w)) ->
  Forall storedOk (st_workouts (state w)) ->
  draftInvariant (st_exercises (state (step JSON_stringify ev w))) /\
  Forall storedOk (st_workouts (state (step JSON_stringify ev w))).
Proof.
  intros Hok Hd Hw. destruct ev as [t|d|n|op|env|i]; simpl; try (split; assumption).
  - split; [|exact Hw]. apply applyOp_keeps_invariant; [exact Hd|].
    destruct op; simpl in Hok |- *; try exact I; try exact Hok.
  - destruct (handleSaveWorkout_cases env w) as [[Hst Hls]|[Hname Hexs]].
    + rewrite Hst. split; assumption.
    + rewrite (handleSaveWorkout_valid JSON_stringify env w Hname Hexs). simpl.
      split.
      * split; [discriminate|]. split; repeat constructor; try discriminate.
        intros Hin. apply list_elem_of_In in Hin. destruct Hin.
      * constructor; [|exact Hw].
        destruct Hd as (Hne & Hsets & _).
        unfold storedOk. simpl. split; [exact Hname|]. split; [apply trim_idem|].
        split; [exact Hne|].
        rewrite List.Forall_forall in Hexs, Hsets |- *. intros ex Hin.
        split; [apply Hexs, Hin|apply Hsets, Hin].
  - split; [exact Hd|].
    rewrite List.Forall_forall in Hw |- *. intros x Hin.
    apply filter_In in Hin as [Hin _]. apply Hw, Hin.
Qed.

Lemma step_keeps_distinct_ids (ev : AppEvent) (w : World) :
  eventOk ev w ->
  NoDup (map id (st_workouts (state w))) ->
  NoDup (map id (st_workouts (state (step JSON_stringify ev w)))).
Proof.
  intros Hok Hnd. destruct ev as [t|d|n|op|env|i]; simpl; try exact Hnd.
  - destruct (handleSaveWorkout_cases env w) as [[Hst Hls]|[Hname Hexs]].
    + rewrite Hst. exact Hnd.
    + rewrite (handleSaveWorkout_valid JSON_stringify env w Hname Hexs). simpl.
      apply NoDup_cons. split; [|exact Hnd].
      intros Hin. apply list_elem_of_In in Hin. exact (Hok Hin).
  - revert Hnd. generalize (st_workouts (state w)). intros l.
    induction l as [|x l IH]; simpl; intros Hnd; [exact Hnd|].
    apply NoDup_cons in Hnd as [Hout Hnd].
    destruct (negb (String.eqb (id x) i)); simpl; [|apply IH, Hnd].
    apply NoDup_cons. split; [|apply IH, Hnd].
    intros Hin. apply Hout. apply list_elem_of_In. apply list_elem_of_In in Hin.
    apply in_map_iff in Hin as [y [Hy Hin]]. apply filter_In in Hin as [Hin _].
    rewrite <- Hy. apply in_map, Hin.
Qed.

Lemma workout_id_length_exact (workoutId : string) (l : list Workout) :
  NoDup (map id l) -> In workoutId (map id l) ->
  S (length (List.filter (fun x => negb (String.eqb (id x) workoutId)) l)) = length l.
Proof.
  induction l as [|x l IH]; simpl; intros Hnd Hin; [destruct Hin|].
  apply NoDup_cons in Hnd as [Hout Hnd].
  destruct (String.eqb_spec (id x) workoutId) as [Heq|Hne]; simpl.
  - rewrite filter_absent_workout; [reflexivity|].
    intros Hin'. apply Hout, list_elem_of_In. rewrite Heq. exact Hin'.
  - f_equal. apply IH; [exact Hnd|]. destruct Hin; [contradiction|assumption].
Qed.

End ComponentInvariants.



Lemma reaches_keeps_wellformed (JSON_stringify : json -> string)
  (loaded : list Workout) (uuid today : string) (store : gmap string string)
  (w : World) :
  Forall storedOk loaded ->
  reaches JSON_stringify (initialWorld loaded uuid today store) w ->
  draftInvariant (st_exercises (state w)) /\ Forall storedOk (st_workouts (state w)).
Proof.
  intros Hl Hr. induction Hr as [|ev w' Hr IH Hok].
  - simpl. split; [|exact Hl].
    split; [discriminate|]. split; repeat constructor; try discriminate.
    intros Hin. apply list_elem_of_In in Hin. destruct Hin.
  - destruct IH as [Hd Hw]. apply step_keeps_wellformed; assumption.
Qed.

(** Validation and the removal guards make every stored workout well formed.
    Starting from a well-formed collection and the initial draft, after any
    events every stored workout has a non-empty name with no blanks around
    it, at least one exercise, and exercises that each have a non-blank name
    and at least one set. *)
Theorem stored_workouts_stay_wellformed (JSON_stringify : json -> string)
  (loaded : list Workout) (uuid today : string) (store : gmap string string)
  (w : World) :
  Forall storedOk loaded ->
  reaches JSON_stringify (initialWorld loaded uuid today store) w ->
  Forall storedOk (st_workouts (state w)).
Proof.
  intros Hl Hr.
  apply (reaches_keeps_wellformed JSON_stringify loaded uuid today store w Hl Hr).
Qed.

Lemma stored_workouts_stay_wellformed_witness :
  Forall storedOk
    (st_workouts (state
       (step RefJSON.stringify (EvSave sampleEnv)
          (step RefJSON.stringify (EvDraft (OpRename "e0" " Squat "))
             (step RefJSON.stringify (EvName " Leg Day ")
                (initialWorld [] "e0" "2024-01-02" ∅)))))).
Proof.
  apply (stored_workouts_stay_wellformed RefJSON.stringify [] "e0" "2024-01-02" ∅).
  - constructor.
  - apply reaches_step; [apply reaches_step; [apply reaches_step;
      [apply reaches_refl|exact I]|exact I]|].
    simpl. tauto.
Defined.

(** Stored workouts keep distinct ids when each commit draws an id not in
    use, and then Delete removes exactly one workout: the collection is one
    shorter when the id is stored. *)
Theorem stored_ids_stay_distinct (JSON_stringify : json -> string) (w w' : World) :
  NoDup (map id (st_workouts (state w))) ->
  reaches JSON_stringify w w' ->
  NoDup (map id (st_workouts (state w'))) /\
  (forall i, In i (map id (st_workouts (state w'))) ->
             S (length (st_workouts (state (deleteWorkout JSON_stringify i w'))))
             = length (st_workouts (state w'))).
Proof.
  intros Hnd Hr.
  assert (H : NoDup (map id (st_workouts (state w')))).
  { induction Hr as [|ev w' Hr IH Hok]; [exact Hnd|].
    apply step_keeps_distinct_ids; assumption. }
  split; [exact H|].
  intros i Hin. unfold deleteWorkout. simpl. apply workout_id_length_exact; assumption.
Qed.

Lemma stored_ids_stay_distinct_witness :
  NoDup (map id (st_workouts (state
     (step RefJSON.stringify (EvSave sampleEnv) readyWorld)))).
Proof.
  apply (stored_ids_stay_distinct RefJSON.stringify readyWorld).
  - apply (bool_decide_unpack _). vm_compute. exact I.
  - apply reaches_step; [apply reaches_refl|].
    simpl. intros [H|[]]. discriminate.
Defined.




